(** * chemprop/train/evaluate.py: masked multi-task metric evaluation

    A shallow embedding of [select_valid_values], [_evaluate_predictions],
    [evaluate_predictions] and [evaluate], the properties of the
    specification checked against it, and further properties of the code.

    Conventions of the embedding.
    - A Python [float] is a binary64 value: [PrimFloat.float].  [x == 0]
      is the IEEE comparison [PrimFloat.eqb].
    - A cell of the prediction grid is a number or, for multiclass data, a
      list of class scores; a cell of the target grid is a number or [None].
    - [num_tasks] and the indices are natural numbers.
    - A Python exception is a value of [exn]; a computation that may raise
      returns a [result].
    - What the evaluator does to the outside world (a warning given to
      [logger.info] or to [print], a call of a metric function) is recorded
      as a list of [event]s next to the result; the events emitted before
      an exception are kept.
    - [results] (a [defaultdict(list)], then a [dict]) is a [gmap] from the
      metric key to the list of values; [metric_to_func], which the code
      iterates over, is an insertion-ordered dictionary.
    - The metric registry [get_metric_func] and the metric functions are
      parameters, and so is [np.nanmean], which is numpy's: the order in
      which numpy adds the values is not fixed here.  What numpy documents
      of it, that it returns the mean of the entries that are not NaN, is
      the predicate [skip_nan_mean], a hypothesis where it is needed. *)

From Stdlib Require Import PrimFloat.
From stdpp Require Import gmap strings list fin_maps.

(** ** Values, exceptions, events *)

Inductive value :=
| Num (x : float)
| Scores (scores : list float).

Inductive exn :=
| IndexError
| TypeError
| ValueError (msg : string).

Inductive result (A : Type) :=
| Ok (a : A)
| Raise (e : exn).
Arguments Ok {A} a.
Arguments Raise {A} e.

Definition rbind {A B} (r : result A) (k : A → result B) : result B :=
  match r with
  | Ok a => k a
  | Raise e => Raise e
  end.

Notation "x <- r ;; k" := (rbind r (λ x, k))
  (at level 100, r at next level, right associativity,
   format "x  <-  r ;;  '/' k").

(** [l[i]] for a non-negative [i]. *)
Definition index {A} (l : list A) (i : nat) : result A :=
  match l !! i with
  | Some a => Ok a
  | None => Raise IndexError
  end.

(** [for x in xs: s = body(x, s)], stopping at the first exception. *)
Fixpoint for_each {A S} (xs : list A) (body : A → S → result S) (s : S)
  : result S :=
  match xs with
  | [] => Ok s
  | x :: xs' => s' <- body x s;; for_each xs' body s'
  end.

(** [range(n)] *)
Definition range (n : nat) : list nat := seq 0 n.

Record Logger := mkLogger { logger_name : string }.

(** A metric function of the registry: [(targets, preds, labels=None)]. *)
Definition metric_func : Type :=
  list float → list value → option (list nat) → result float.

Inductive event :=
| Logged (lg : Logger) (msg : string)
| Printed (msg : string)
| Invoked (key : string) (targets : list float) (preds : list value)
    (labels : option (list nat)).

(** Computations that emit events and may raise. *)
Definition M (A : Type) : Type := (list event * result A)%type.

Definition eret {A} (a : A) : M A := ([], Ok a).

Definition ebind {A B} (m : M A) (k : A → M B) : M B :=
  match m with
  | (tr, Ok a) => let '(tr', r) := k a in (tr ++ tr', r)
  | (tr, Raise e) => (tr, Raise e)
  end.

Definition lift {A} (r : result A) : M A := ([], r).

Definition emit (e : event) : M unit := ([e], Ok tt).

Notation "x <~ m ;; k" := (ebind m (λ x, k))
  (at level 100, m at next level, right associativity,
   format "x  <~  m ;;  '/' k").

Fixpoint efor_each {A S} (xs : list A) (body : A → S → M S) (s : S) : M S :=
  match xs with
  | [] => eret s
  | x :: xs' => s' <~ body x s;; efor_each xs' body s'
  end.

(** ** Floats *)

Definition nan : float := PrimFloat.nan.

(** [float(n)] for a length [n] (exact below 2^53). *)
Fixpoint float_of_nat (n : nat) : float :=
  match n with
  | O => 0%float
  | S n' => PrimFloat.add (float_of_nat n') 1%float
  end.

(** The sum of a list with the additions made in the order of the list,
    from 0. *)
Definition fsum (xs : list float) : float :=
  foldl PrimFloat.add 0%float xs.

Definition not_nan (x : float) : bool := negb (PrimFloat.is_nan x).

(** A sum of floating-point numbers with its additions in some order: the
    terms are the leaves of a tree, and every node is one addition. *)
Inductive sum_tree :=
| Term (x : float)
| Plus (l r : sum_tree).

Fixpoint terms (t : sum_tree) : list float :=
  match t with
  | Term x => [x]
  | Plus l r => terms l ++ terms r
  end.

Fixpoint total (t : sum_tree) : float :=
  match t with
  | Term x => x
  | Plus l r => PrimFloat.add (total l) (total r)
  end.

Definition is_zero (x : float) : Prop :=
  x = PrimFloat.zero ∨ x = PrimFloat.neg_zero.

(** What numpy documents of [np.nanmean(values)] on a list: [mean] is the
    mean of the entries that are not NaN, that is the quotient, by their
    number, of a sum of them.  The order of the additions is numpy's, and
    zeros may be among the terms (numpy puts 0 in the place of a NaN and
    may start from 0); when no entry is left the quotient is [0/0]. *)
Definition skip_nan_mean (values : list float) (mean : float) : Prop :=
  let kept := List.filter not_nan values in
  ∃ t zeros,
    terms t ≡ₚ kept ++ zeros ∧ Forall is_zero zeros ∧
    mean = PrimFloat.div (total t) (float_of_nat (length kept)).

(** [all(target == c for target in targets)] *)
Definition all_eq (c : float) (targets : list float) : bool :=
  forallb (λ t, PrimFloat.eqb t c) targets.

(** [pred == c] for a cell of the prediction grid: a list is never equal
    to a number. *)
Definition value_eqb (p : value) (c : float) : bool :=
  match p with
  | Num x => PrimFloat.eqb x c
  | Scores _ => false
  end.

Definition all_value_eq (c : float) (preds : list value) : bool :=
  forallb (λ p, value_eqb p c) preds.

(** [len(p)] for a cell of the prediction grid. *)
Definition value_len (p : value) : result nat :=
  match p with
  | Scores l => Ok (length l)
  | Num _ => Raise TypeError
  end.

(** ** select_valid_values *)

(** [groups[index].append(x)] *)
Definition append_at {A} (groups : list (list A)) (idx : nat) (x : A)
  : result (list (list A)) :=
  g <- index groups idx;;
  Ok (<[idx := g ++ [x]]> groups).

Abbreviation grid A := (list (list A)).

Abbreviation groups := (list (list value) * list (list float))%type.

(** The body of the inner loop (lines 34-37). *)
Definition select_cell (preds : grid value) (targets : grid (option float))
    (metric_by_row : bool) (i j : nat) (st : groups) : result groups :=
  let '(valid_preds, valid_targets) := st in
  row <- index targets j;;
  cell <- index row i;;
  match cell with
  | None => Ok st
  | Some t =>
      let idx := if metric_by_row then j else i in
      _ <- index valid_preds idx;;
      prow <- index preds j;;
      p <- index prow i;;
      valid_preds' <- append_at valid_preds idx p;;
      valid_targets' <- append_at valid_targets idx t;;
      Ok (valid_preds', valid_targets')
  end.

Definition select_valid_values (preds : grid value)
    (targets : grid (option float)) (num_tasks : nat) (metric_by_row : bool)
  : result groups :=
  let num_values := if metric_by_row then length preds else num_tasks in
  let valid_preds := replicate num_values [] in
  let valid_targets := replicate num_values [] in
  for_each (range num_tasks)
    (λ i st, for_each (range (length preds))
               (select_cell preds targets metric_by_row i) st)
    (valid_preds, valid_targets).

(** ** Dictionaries in insertion order *)

(** [d[k] = v] *)
Fixpoint dict_set {V} (d : list (string * V)) (k : string) (v : V)
  : list (string * V) :=
  match d with
  | [] => [(k, v)]
  | (k', v') :: d' =>
      if String.eqb k' k then (k', v) :: d' else (k', v') :: dict_set d' k v
  end.

(** [results[key].append(x)] on a [defaultdict(list)] *)
Definition append_result (results : gmap string (list float)) (key : string)
    (x : float) : gmap string (list float) :=
  <[key := default [] (results !! key) ++ [x]]> results.

(** ** _evaluate_predictions and evaluate_predictions *)

Section numpy.

(** [np.nanmean] is numpy's and is taken as a parameter, for all that
    follows. *)
Variable nanmean : list float → float.

Section evaluate.

(** [chemprop.utils.get_metric_func], the metric registry: it is not part
    of this file and is taken as a parameter; it raises for a name it does
    not know. *)
Variable get_metric_func : string → result metric_func.

Definition metric_key (metric_by_row : bool) (metric : string) : string :=
  String.append metric (if metric_by_row then "-by-row" else "")%string.

(** The dictionary comprehension of line 66. *)
Fixpoint build_metric_to_func (metric_by_row : bool) (metrics : list string)
    (d : list (string * metric_func)) : result (list (string * metric_func)) :=
  match metrics with
  | [] => Ok d
  | metric :: rest =>
      f <- get_metric_func metric;;
      build_metric_to_func metric_by_row rest
        (dict_set d (metric_key metric_by_row metric) f)
  end.

(** [info = logger.info if logger is not None else print] *)
Definition info_event (logger : option Logger) (msg : string) : event :=
  match logger with
  | Some lg => Logged lg msg
  | None => Printed msg
  end.

Definition info (logger : option Logger) (msg : string) : M unit :=
  emit (info_event logger msg).

Definition warn_targets : string :=
  "Warning: Found a task with targets all 0s or all 1s"%string.
Definition warn_preds : string :=
  "Warning: Found a task with predictions all 0s or all 1s"%string.

(** Lines 92-93: a NaN under every metric key. *)
Definition append_nans (metric_to_func : list (string * metric_func))
    (results : gmap string (list float)) : gmap string (list float) :=
  foldl (λ r kf, append_result r kf.1 nan) results metric_to_func.

(** Lines 99-104 for one metric. *)
Definition call_metric (dataset_type : string)
    (valid_preds : list (list value)) (valid_targets : list (list float))
    (i : nat) (kf : string * metric_func)
    (results : gmap string (list float)) : M (gmap string (list float)) :=
  let '(key, func) := kf in
  if String.eqb dataset_type "multiclass"%string then
    ts <~ lift (index valid_targets i);;
    ps <~ lift (index valid_preds i);;
    ps' <~ lift (index valid_preds i);;
    first <~ lift (index ps' 0);;
    n <~ lift (value_len first);;
    let labels := Some (range n) in
    _ <~ emit (Invoked key ts ps labels);;
    x <~ lift (func ts ps labels);;
    eret (append_result results key x)
  else
    ts <~ lift (index valid_targets i);;
    ps <~ lift (index valid_preds i);;
    _ <~ emit (Invoked key ts ps None);;
    x <~ lift (func ts ps None);;
    eret (append_result results key x).

(** Lines 96-104: skip a group without targets, else call every metric. *)
Definition compute_group (dataset_type : string)
    (metric_to_func : list (string * metric_func))
    (valid_preds : list (list value)) (valid_targets : list (list float))
    (i : nat) (results : gmap string (list float))
  : M (gmap string (list float)) :=
  ts <~ lift (index valid_targets i);;
  if Nat.eqb (length ts) 0 then eret results
  else
    efor_each metric_to_func
      (call_metric dataset_type valid_preds valid_targets i) results.

(** The body of the loop of line 78, for group [i]. *)
Definition process_group (dataset_type : string) (metric_by_row : bool)
    (logger : option Logger) (metric_to_func : list (string * metric_func))
    (valid_preds : list (list value)) (valid_targets : list (list float))
    (i : nat) (results : gmap string (list float))
  : M (gmap string (list float)) :=
  if String.eqb dataset_type "classification"%string then
    ts <~ lift (index valid_targets i);;
    let targets_same := all_eq 0 ts || all_eq 1 ts in
    _ <~ (if targets_same && negb metric_by_row
          then info logger warn_targets else eret tt);;
    ps <~ lift (index valid_preds i);;
    let preds_same := all_value_eq 0 ps || all_value_eq 1 ps in
    _ <~ (if preds_same && negb metric_by_row
          then info logger warn_preds else eret tt);;
    if targets_same || preds_same
    then eret (append_nans metric_to_func results)
    else compute_group dataset_type metric_to_func valid_preds valid_targets
           i results
  else
    compute_group dataset_type metric_to_func valid_preds valid_targets
      i results.

(** Lines 77-106: the loop over [range(len(preds))]. *)
Definition metric_loop (dataset_type : string) (metric_by_row : bool)
    (logger : option Logger) (metric_to_func : list (string * metric_func))
    (valid_preds : list (list value)) (valid_targets : list (list float))
    (num_items : nat) : M (gmap string (list float)) :=
  efor_each (range num_items)
    (process_group dataset_type metric_by_row logger metric_to_func
       valid_preds valid_targets) ∅.

(** Line 62: [{metric: [nan] * num_tasks for metric in metrics}] *)
Definition nan_results (metrics : list string) (num_tasks : nat)
  : gmap string (list float) :=
  foldl (λ r metric, <[metric := replicate num_tasks nan]> r) ∅ metrics.

Definition _evaluate_predictions (preds : grid value)
    (targets : grid (option float)) (num_tasks : nat) (metrics : list string)
    (dataset_type : string) (metric_by_row : bool) (logger : option Logger)
  : M (gmap string (list float)) :=
  if Nat.eqb (length preds) 0 then eret (nan_results metrics num_tasks)
  else
    metric_to_func <~ lift (build_metric_to_func metric_by_row metrics []);;
    valid <~ lift (select_valid_values preds targets num_tasks
                     metric_by_row);;
    results <~ metric_loop dataset_type metric_by_row logger metric_to_func
                 valid.1 valid.2 (length preds);;
    if metric_by_row
    then eret ((λ values, [nanmean values]) <$> results)
    else eret results.

(** [results.update(other)]: the keys of [other] win. *)
Definition evaluate_predictions (preds : grid value)
    (targets : grid (option float)) (num_tasks : nat) (metrics : list string)
    (dataset_type : string) (metric_by_row : bool) (logger : option Logger)
  : M (gmap string (list float)) :=
  results <~ _evaluate_predictions preds targets num_tasks metrics
               dataset_type false logger;;
  if metric_by_row then
    by_row <~ _evaluate_predictions preds targets num_tasks metrics
                dataset_type true logger;;
    eret (by_row ∪ results)
  else eret results.

End evaluate.

(** ** Cells and groups, to state what the selector returns *)

(** A cell is (item, task). *)
Abbreviation cell := (nat * nat)%type.

Definition target_at (targets : grid (option float)) (c : cell)
  : option (option float) :=
  targets !! c.1 ≫= λ row, row !! c.2.

Definition pred_at (preds : grid value) (c : cell) : option value :=
  preds !! c.1 ≫= λ row, row !! c.2.

(** The target of the cell is there and is not [None]. *)
Definition present (targets : grid (option float)) (c : cell) : bool :=
  match target_at targets c with
  | Some (Some _) => true
  | _ => false
  end.

(** The loop can read the cell: the target grid has it and, when the target
    is present, the prediction grid has it too. *)
Definition cell_ok (preds : grid value) (targets : grid (option float))
    (c : cell) : bool :=
  match target_at targets c with
  | None => false
  | Some None => true
  | Some (Some _) => bool_decide (is_Some (pred_at preds c))
  end.

(** The cells in the order in which lines 32-33 visit them. *)
Definition visited (num_items num_tasks : nat) : list cell :=
  range num_tasks ≫= λ i, (λ j, (j, i)) <$> range num_items.

(** Group [g] along the non-grouped axis: the column of task [g] in item
    order, or the row of item [g] in task order. *)
Definition line (num_items num_tasks : nat) (by_row : bool) (g : nat)
  : list cell :=
  if by_row then (λ i, (g, i)) <$> range num_tasks
  else (λ j, (j, g)) <$> range num_items.

(** The cells of group [g] whose target is present. *)
Definition group_cells (targets : grid (option float))
    (num_items num_tasks : nat) (by_row : bool) (g : nat) : list cell :=
  filter (λ c, present targets c) (line num_items num_tasks by_row g).

Definition valid_target (targets : grid (option float)) (c : cell)
  : option float :=
  mjoin (target_at targets c).

Definition valid_pred (preds : grid value) (targets : grid (option float))
    (c : cell) : option value :=
  if present targets c then pred_at preds c else None.

(** The valid targets, and the valid predictions, of group [g]: "every
    prediction/target pair at task [g] whose target is present, in item
    order", or those of item [g] in task order. *)
Definition group_targets (targets : grid (option float))
    (num_items num_tasks : nat) (by_row : bool) (g : nat) : list float :=
  omap (valid_target targets) (line num_items num_tasks by_row g).

Definition group_preds (preds : grid value) (targets : grid (option float))
    (num_items num_tasks : nat) (by_row : bool) (g : nat) : list value :=
  omap (valid_pred preds targets) (line num_items num_tasks by_row g).

(** The groups as the specification describes them. *)
Definition selected (preds : grid value) (targets : grid (option float))
    (num_tasks : nat) (by_row : bool) : groups :=
  let num_values := if by_row then length preds else num_tasks in
  (group_preds preds targets (length preds) num_tasks by_row
     <$> range num_values,
   group_targets targets (length preds) num_tasks by_row
     <$> range num_values).

(** Both grids have one row per item and [num_tasks] cells per row. *)
Definition well_shaped (preds : grid value) (targets : grid (option float))
    (num_tasks : nat) : Prop :=
  length preds = length targets ∧
  Forall (λ row, length row = num_tasks) preds ∧
  Forall (λ row, length row = num_tasks) targets.

Definition group_of (by_row : bool) (c : cell) : nat :=
  if by_row then c.1 else c.2.

(** The groups built from the cells seen so far (the invariant of the
    loops of lines 32-37). *)
Definition sel {A} (val : cell → option A) (by_row : bool) (nv : nat)
    (seen : list cell) : list (list A) :=
  (λ g, omap val (filter (λ c, group_of by_row c = g) seen)) <$> range nv.

Definition sel_state (preds : grid value) (targets : grid (option float))
    (by_row : bool) (nv : nat) (seen : list cell) : groups :=
  (sel (valid_pred preds targets) by_row nv seen,
   sel (valid_target targets) by_row nv seen).

(** ** Groups and the values recorded for them *)

(** Lines 82 and 86: the targets, or the predictions, of the group are
    all 0 or all 1. *)
Definition degenerate (ts : list float) (ps : list value) : bool :=
  (all_eq 0 ts || all_eq 1 ts) || (all_value_eq 0 ps || all_value_eq 1 ps).

(** The [labels] argument of line 102. *)
Definition labels_of (dataset_type : string) (ps : list value)
  : result (option (list nat)) :=
  if String.eqb dataset_type "multiclass"%string then
    first <- index ps 0;;
    n <- value_len first;;
    Ok (Some (range n))
  else Ok None.

(** What a metric function returns for a group. *)
Definition metric_value (dataset_type : string) (func : metric_func)
    (ts : list float) (ps : list value) : result float :=
  labels <- labels_of dataset_type ps;;
  func ts ps labels.

(** The value recorded for a group that contributes an entry. *)
Definition group_value (dataset_type : string) (func : metric_func)
    (ts : list float) (ps : list value) : result float :=
  if String.eqb dataset_type "classification"%string && degenerate ts ps
  then Ok nan
  else metric_value dataset_type func ts ps.

(** A group contributes an entry unless it is skipped by line 96-97, which
    a classification group never reaches when it is empty. *)
Definition contributes (dataset_type : string) (ts : list float) : bool :=
  String.eqb dataset_type "classification"%string
  || negb (Nat.eqb (length ts) 0).

(** [new] appended to what a key of [results] held. *)
Definition extend (old : option (list float)) (new : list float)
  : option (list float) :=
  match new with
  | [] => old
  | _ => Some (default [] old ++ new)
  end.

(** One step of the loop on [results]: under every key of
    [metric_to_func] one value, satisfying [val], is appended; the other
    keys are untouched. *)
Definition recorded (metric_to_func : list (string * metric_func))
    (val : metric_func → float → Prop)
    (r r' : gmap string (list float)) : Prop :=
  (∀ k, k ∉ metric_to_func.*1 → r' !! k = r !! k) ∧
  ∀ k f, (k, f) ∈ metric_to_func →
    ∃ x, val f x ∧ r' !! k = Some (default [] (r !! k) ++ [x]).

(** Group [i] of the selector's output contributes an entry. *)
Definition contributes_at (dataset_type : string)
    (valid_targets : list (list float)) (i : nat) : bool :=
  from_option (contributes dataset_type) false (valid_targets !! i).

(** [x] is the value recorded under [func] for group [i]. *)
Definition value_at (dataset_type : string) (func : metric_func)
    (valid_preds : list (list value)) (valid_targets : list (list float))
    (i : nat) (x : float) : Prop :=
  ∃ ts ps, valid_targets !! i = Some ts ∧ valid_preds !! i = Some ps ∧
    group_value dataset_type func ts ps = Ok x.

(** The groups that have at least one valid target: the labelled tasks,
    or the labelled items when [by_row]. *)
Definition labelled (targets : grid (option float))
    (num_items num_tasks : nat) (by_row : bool) : list nat :=
  filter (λ g, group_cells targets num_items num_tasks by_row g ≠ [])
    (range (if by_row then num_items else num_tasks)).

(** The groups that contribute an entry: all of them on classification
    data, the labelled ones otherwise. *)
Definition contributing (dataset_type : string)
    (targets : grid (option float)) (num_items num_tasks : nat)
    (by_row : bool) : list nat :=
  if String.eqb dataset_type "classification"%string
  then range (if by_row then num_items else num_tasks)
  else labelled targets num_items num_tasks by_row.

(** ** Events *)

(** A warning that went to [print] goes to the logger when there is one. *)
Definition route (lg : Logger) (ev : event) : event :=
  match ev with
  | Printed msg => Logged lg msg
  | _ => ev
  end.

(** [loud] is [quiet] with its warnings sent to the logger [lg]. *)
Definition rerouted {A} (lg : Logger) (quiet loud : M A) : Prop :=
  loud = (route lg <$> quiet.1, quiet.2).



(** ** Calls that return *)

(** The computation returns a value. *)
Definition succeeds {A} (m : M A) : Prop := ∃ tr a, m = (tr, Ok a).

(** A metric function that returns a value on every input, and a list of
    metric names that the registry knows as such functions. *)
Definition never_raises (func : metric_func) : Prop :=
  ∀ ts ps labels, ∃ x, func ts ps labels = Ok x.

Definition known_total (get_metric_func : string → result metric_func)
    (metrics : list string) : Prop :=
  Forall (λ m, ∃ f, get_metric_func m = Ok f ∧ never_raises f) metrics.

(** ** Three properties as the specification states them *)

(** Task-axis mode: the call returns and every requested metric has one
    entry per task that has a valid target, and no other entry. *)
Definition one_entry_per_labelled_task
    (get_metric_func : string → result metric_func) (preds : grid value)
    (targets : grid (option float)) (num_tasks : nat) (metrics : list string)
    (dataset_type : string) (logger : option Logger) : Prop :=
  ∃ tr res,
    evaluate_predictions get_metric_func preds targets num_tasks metrics
      dataset_type false logger = (tr, Ok res) ∧
    ∀ m, m ∈ metrics →
      length (default [] (res !! m))
        = length (labelled targets (length preds) num_tasks false).

(** The keys are the requested names and, iff [metric_by_row], the same
    names with the suffix. *)
Definition keys_as_requested (metrics : list string) (metric_by_row : bool)
    (res : gmap string (list float)) : Prop :=
  dom res =
    list_to_set metrics ∪
    (if metric_by_row then list_to_set (metric_key true <$> metrics) else ∅).

(** Every requested metric has a row-axis entry of exactly one value. *)
Definition single_row_entry (metrics : list string)
    (res : gmap string (list float)) : Prop :=
  ∀ m, m ∈ metrics → ∃ x, res !! metric_key true m = Some [x].

(** ** A registry for the examples *)

(** A metric that returns the number of targets it is given, one that
    returns the sum of the targets, one that always raises, and a registry
    that knows them as "count", "sum" and "raising". *)
Definition count_targets : metric_func :=
  λ ts _ _, Ok (float_of_nat (length ts)).

Definition sum_targets : metric_func :=
  λ ts _ _, Ok (fsum ts).

Definition raising : metric_func :=
  λ _ _ _, Raise (ValueError "called").

Definition example_registry (name : string) : result metric_func :=
  if String.eqb name "count" then Ok count_targets
  else if String.eqb name "sum" then Ok sum_targets
  else if String.eqb name "raising" then Ok raising
  else Raise (ValueError "unknown metric").

(** An [np.nanmean] for the examples: the mean of the entries that are
    not NaN, their sum made in the order of the list. *)
Definition in_order_nanmean (values : list float) : float :=
  let kept := List.filter not_nan values in
  PrimFloat.div (fsum kept) (float_of_nat (length kept)).

(** Two grids of two items and two tasks; no item has a target for the
    second task. *)
Definition ex_preds : grid value :=
  [[Num 0.75; Num 0.5]; [Num 0.25; Num 0.5]].

Definition ex_targets : grid (option float) :=
  [[Some 1%float; None]; [Some 0%float; None]].

(** ** evaluate *)

Section evaluate_model.

(** [chemprop.train.predict.predict] and the [targets] property of
    [MoleculeDataLoader] are not part of this file: they are parameters, and
    either may raise. *)
Variable MoleculeModel : Type.
Variable MoleculeDataLoader : Type.
Variable StandardScaler : Type.
Variable predict :
  MoleculeModel → MoleculeDataLoader → option StandardScaler →
  result (grid value).
Variable loader_targets : MoleculeDataLoader → result (grid (option float)).
Variable get_metric_func : string → result metric_func.

Definition evaluate (model : MoleculeModel) (data_loader : MoleculeDataLoader)
    (num_tasks : nat) (metrics : list string) (dataset_type : string)
    (metric_by_row : bool) (scaler : option StandardScaler)
    (logger : option Logger) : M (gmap string (list float)) :=
  preds <~ lift (predict model data_loader scaler);;
  targets <~ lift (loader_targets data_loader);;
  evaluate_predictions get_metric_func preds targets num_tasks metrics
    dataset_type metric_by_row logger.

End evaluate_model.

(** ** Events, metric names and grids, to state further properties *)

(** The event is a warning (what went to [logger.info] or to [print]). *)
Definition is_warning (ev : event) : bool :=
  match ev with
  | Invoked _ _ _ _ => false
  | _ => true
  end.

(** A call of a metric function recorded by the event is a call for a
    requested metric, under its key, on the valid targets and predictions
    of one group whose index is below the item count (the bound of the
    loop of line 78); these are as many and at least one, and the labels
    are those of line 102. *)
Definition invoked_on_group (preds : grid value)
    (targets : grid (option float)) (num_tasks : nat) (metrics : list string)
    (dataset_type : string) (ev : event) : Prop :=
  match ev with
  | Invoked key ts ps labels =>
      ∃ (by_row : bool) g m,
        g < length preds ∧
        g < (if by_row then length preds else num_tasks) ∧
        m ∈ metrics ∧
        key = metric_key by_row m ∧
        ts = group_targets targets (length preds) num_tasks by_row g ∧
        ps = group_preds preds targets (length preds) num_tasks by_row g ∧
        ts ≠ [] ∧ length ps = length ts ∧
        labels_of dataset_type ps = Ok labels
  | _ => True
  end.

(** The same for the loop body: a call recorded by the event is under one
    of the keys, on group [i] of the selector's output, which has a
    target, with the labels of line 102. *)
Definition invoked_at (dataset_type : string) (keys : list string)
    (valid_preds : list (list value)) (valid_targets : list (list float))
    (i : nat) (ev : event) : Prop :=
  match ev with
  | Invoked key ts ps labels =>
      key ∈ keys ∧ valid_targets !! i = Some ts ∧ valid_preds !! i = Some ps ∧
      ts ≠ [] ∧ labels_of dataset_type ps = Ok labels
  | _ => True
  end.

(** The names of a list without their repetitions, in the order of their
    first occurrences: the order of the keys of a dictionary built from
    the list. *)
Fixpoint first_occurrences (names : list string) : list string :=
  match names with
  | [] => []
  | name :: rest => name :: filter (λ x, x ≠ name) (first_occurrences rest)
  end.

(** Two pairs of grids agree on what the loops of lines 32-37 read: the
    item count of the predictions, the targets of the cells visited and the
    predictions of those of them whose target is present. *)
Definition same_visited_cells (num_tasks : nat) (preds preds' : grid value)
    (targets targets' : grid (option float)) : Prop :=
  length preds = length preds' ∧
  ∀ c : cell, c.1 < length preds → c.2 < num_tasks →
    target_at targets c = target_at targets' c ∧
    (present targets c = true → pred_at preds c = pred_at preds' c).

(** Every prediction of the grid is a list of class scores, or every
    prediction is a number. *)
Definition all_scores (preds : grid value) : Prop :=
  Forall (Forall (λ p, ∃ scores, p = Scores scores)) preds.

Definition all_numbers (preds : grid value) : Prop :=
  Forall (Forall (λ p, ∃ x, p = Num x)) preds.

(** The groups of two data sets put together: in task-axis mode group by
    group, in row-axis mode one list of groups after the other. *)
Definition combine (by_row : bool) (a b : groups) : groups :=
  if by_row then (a.1 ++ b.1, a.2 ++ b.2)
  else (zip_with app a.1 b.1, zip_with app a.2 b.2).

(** Two computations return the same values, whatever they emit. *)
Definition same_value {A} (m1 m2 : M A) : Prop :=
  ∀ a, (∃ tr, m1 = (tr, Ok a)) ↔ (∃ tr, m2 = (tr, Ok a)).

(** The event, when it is a warning, is one of the two messages of lines
    85 and 89, given to the logger when there is one and to [print]
    otherwise. *)
Definition warning_to (logger : option Logger) (ev : event) : Prop :=
  match ev with
  | Invoked _ _ _ _ => True
  | _ => ev = info_event logger warn_targets ∨ ev = info_event logger warn_preds
  end.

(** * Proofs *)

(** ** The two monads *)

Lemma rbind_ok {A B} (r : result A) (k : A → result B) b :
  rbind r k = Ok b → ∃ a, r = Ok a ∧ k a = Ok b.
Proof. destruct r; simpl; [eauto | discriminate]. Qed.

Lemma ebind_ok {A B} (m : M A) (k : A → M B) tr b :
  ebind m k = (tr, Ok b) →
  ∃ tr1 a tr2, m = (tr1, Ok a) ∧ k a = (tr2, Ok b) ∧ tr = tr1 ++ tr2.
Proof.
  destruct m as [tr1 [a|e]]; simpl; [|discriminate].
  destruct (k a) as [tr2 r] eqn:Hk. intros [= <- ->]. eauto 6.
Qed.

Lemma ebind_lift_ok {A B} (r : result A) (k : A → M B) tr b :
  ebind (lift r) k = (tr, Ok b) → ∃ a, r = Ok a ∧ k a = (tr, Ok b).
Proof.
  intros (tr1 & a & tr2 & H1 & H2 & ->)%ebind_ok.
  unfold lift in H1. injection H1 as <- ->. eauto.
Qed.

(** ** The selector *)

Lemma for_each_app {A S} (xs ys : list A) (body : A → S → result S) s :
  for_each (xs ++ ys) body s = rbind (for_each xs body s) (for_each ys body).
Proof.
  revert s. induction xs as [|x xs IH]; intros s; simpl; [done|].
  destruct (body x s); simpl; auto.
Qed.

Lemma for_each_nested {A B S} (xs : list A) (ys : list B)
    (body : A → B → S → result S) s :
  for_each xs (λ x st, for_each ys (body x) st) s =
  for_each (xs ≫= λ x, (λ y, (y, x)) <$> ys) (λ c, body c.2 c.1) s.
Proof.
  revert s. induction xs as [|x xs IH]; intros s; [done|].
  simpl. rewrite for_each_app.
  assert (H : ∀ s, for_each ((λ y, (y, x)) <$> ys) (λ c, body c.2 c.1) s
                   = for_each ys (body x) s).
  { clear. induction ys as [|y ys IH]; intros s; simpl; [done|].
    destruct (body x y s); simpl; auto. }
  rewrite H. destruct (for_each ys (body x) s); simpl; auto.
Qed.

Lemma sel_lookup {A} (val : cell → option A) by_row nv seen g :
  g < nv →
  sel val by_row nv seen !! g =
    Some (omap val (filter (λ c, group_of by_row c = g) seen)).
Proof.
  intros Hg. unfold sel, range. rewrite list_lookup_fmap, lookup_seq_lt by done. done.
Qed.

Lemma sel_length {A} (val : cell → option A) by_row nv seen :
  length (sel val by_row nv seen) = nv.
Proof. unfold sel, range. by rewrite length_fmap, length_seq. Qed.

Lemma sel_skip {A} (val : cell → option A) by_row nv seen c :
  val c = None → sel val by_row nv (seen ++ [c]) = sel val by_row nv seen.
Proof.
  intros Hc. unfold sel. apply list_fmap_ext. intros _ g _.
  rewrite filter_app, omap_app. rewrite filter_cons. case_decide; simpl.
  - rewrite Hc. simpl. by rewrite app_nil_r.
  - by rewrite app_nil_r.
Qed.

Lemma sel_append {A} (val : cell → option A) by_row nv seen c x :
  val c = Some x → group_of by_row c < nv →
  append_at (sel val by_row nv seen) (group_of by_row c) x =
    Ok (sel val by_row nv (seen ++ [c])).
Proof.
  intros Hc Hg. unfold append_at, index. rewrite sel_lookup by done. simpl.
  f_equal. apply list_eq. intros g.
  destruct (decide (g = group_of by_row c)) as [->|Hne].
  - rewrite list_lookup_insert_eq by (by rewrite sel_length).
    rewrite sel_lookup by done. rewrite filter_app, omap_app.
    rewrite filter_cons. rewrite decide_True by done. simpl. by rewrite Hc.
  - rewrite list_lookup_insert_ne by done.
    destruct (decide (g < nv)).
    + rewrite !sel_lookup by done. rewrite filter_app, omap_app.
      rewrite filter_cons. rewrite decide_False by done. simpl. by rewrite app_nil_r.
    + rewrite !lookup_ge_None_2; [done| |]; rewrite sel_length; lia.
Qed.

Lemma index_Some {A} (l : list A) i a : l !! i = Some a → index l i = Ok a.
Proof. unfold index. by intros ->. Qed.

Lemma index_None {A} (l : list A) i : l !! i = None → index l i = Raise IndexError.
Proof. unfold index. by intros ->. Qed.

Lemma select_cell_spec preds targets by_row nv seen c :
  group_of by_row c < nv →
  select_cell preds targets by_row c.2 c.1 (sel_state preds targets by_row nv seen) =
    if cell_ok preds targets c
    then Ok (sel_state preds targets by_row nv (seen ++ [c]))
    else Raise IndexError.
Proof.
  intros Hg. unfold select_cell, sel_state, cell_ok, target_at.
  destruct (targets !! c.1) as [row|] eqn:Hrow; simpl.
  2:{ by rewrite (index_None targets). }
  rewrite (index_Some targets _ row) by done. simpl.
  destruct (row !! c.2) as [[t|]|] eqn:Hcell; simpl.
  3:{ by rewrite (index_None row). }
  - rewrite (index_Some row _ (Some t)) by done. simpl.
    fold (group_of by_row c).
    rewrite (index_Some _ _ _ (sel_lookup _ _ _ _ _ Hg)). simpl.
    assert (Hpres : present targets c = true).
    { unfold present, target_at. by rewrite Hrow; simpl; rewrite Hcell. }
    unfold pred_at.
    destruct (preds !! c.1) as [prow|] eqn:Hprow; simpl.
    2:{ by rewrite (index_None preds). }
    rewrite (index_Some preds _ prow) by done. simpl.
    destruct (prow !! c.2) as [p|] eqn:Hp; simpl.
    2:{ by rewrite (index_None prow). }
    rewrite (index_Some prow _ p) by done. simpl.
    rewrite (sel_append _ _ _ _ _ p); [simpl| |done].
    + rewrite (sel_append _ _ _ _ _ t); [done| |done].
      unfold valid_target, target_at. by rewrite Hrow; simpl; rewrite Hcell.
    + unfold valid_pred, pred_at. rewrite Hpres. by rewrite Hprow; simpl.
  - rewrite (index_Some row _ None) by done. simpl.
    assert (Hpres : present targets c = false).
    { unfold present, target_at. by rewrite Hrow; simpl; rewrite Hcell. }
    rewrite !sel_skip; [done| |].
    + unfold valid_target, target_at. by rewrite Hrow; simpl; rewrite Hcell.
    + unfold valid_pred. by rewrite Hpres.
Qed.

Lemma for_each_cells preds targets by_row nv seen todo :
  Forall (λ c, group_of by_row c < nv) todo →
  for_each todo (λ c, select_cell preds targets by_row c.2 c.1)
    (sel_state preds targets by_row nv seen) =
    if forallb (cell_ok preds targets) todo
    then Ok (sel_state preds targets by_row nv (seen ++ todo))
    else Raise IndexError.
Proof.
  revert seen. induction todo as [|c todo IH]; intros seen Hall.
  - simpl. by rewrite app_nil_r.
  - inversion Hall as [|?? Hc Hrest]; subst.
    cbn [for_each forallb]. rewrite select_cell_spec by done.
    destruct (cell_ok preds targets c); simpl; [|done].
    rewrite IH by done. by rewrite <- app_assoc.
Qed.

Lemma elem_of_visited num_items num_tasks c :
  c ∈ visited num_items num_tasks ↔ c.1 < num_items ∧ c.2 < num_tasks.
Proof.
  unfold visited, range. rewrite list_elem_of_bind. split.
  - intros (i & Hc & Hi). apply list_elem_of_fmap in Hc as (j & -> & Hj).
    apply elem_of_seq in Hi, Hj. simpl. lia.
  - intros [H1 H2]. exists c.2. split.
    + apply list_elem_of_fmap. exists c.1. split; [by destruct c|].
      apply elem_of_seq. lia.
    + apply elem_of_seq. lia.
Qed.

Lemma filter_column (g : nat) (items : list nat) a n :
  filter (λ c : cell, c.2 = g) (seq a n ≫= λ i, (λ j, (j, i)) <$> items) =
    if decide (a ≤ g < a + n) then (λ j, (j, g)) <$> items else [].
Proof.
  revert a. induction n as [|n IH]; intros a; csimpl.
  - case_decide; [lia|done].
  - rewrite filter_app, IH.
    assert (Hblock : filter (λ c : cell, c.2 = g) ((λ j, (j, a)) <$> items) =
              if decide (a = g) then (λ j, (j, g)) <$> items else []).
    { clear. induction items as [|j items IH]; csimpl; [by case_decide|].
      rewrite filter_cons. csimpl.
      destruct (decide (a = g)); subst; [f_equal|]; exact IH. }
    rewrite Hblock. repeat case_decide; subst; try lia; try done.
    by rewrite app_nil_r.
Qed.

Lemma filter_row_block (g i a m : nat) :
  filter (λ c : cell, c.1 = g) ((λ j, (j, i)) <$> seq a m) =
    if decide (a ≤ g < a + m) then [(g, i)] else [].
Proof.
  revert a. induction m as [|m IH]; intros a; csimpl.
  - case_decide; [lia|done].
  - rewrite filter_cons. csimpl. specialize (IH (S a)).
    destruct (decide (a = g)) as [->|Hne].
    + rewrite decide_True by lia. f_equal.
      rewrite decide_False in IH by lia. exact IH.
    + destruct (decide (S a ≤ g < S a + m)).
      * rewrite decide_True by lia. exact IH.
      * rewrite decide_False by lia. exact IH.
Qed.

Lemma filter_row (g num_items a n : nat) :
  g < num_items →
  filter (λ c : cell, c.1 = g)
    (seq a n ≫= λ i, (λ j, (j, i)) <$> seq 0 num_items) =
    (λ i, (g, i)) <$> seq a n.
Proof.
  intros Hg. revert a. induction n as [|n IH]; intros a; csimpl; [done|].
  rewrite filter_app, IH, filter_row_block. rewrite decide_True by lia. done.
Qed.

Lemma filter_group_visited (by_row : bool) num_items num_tasks g :
  g < (if by_row then num_items else num_tasks) →
  filter (λ c, group_of by_row c = g) (visited num_items num_tasks) =
    line num_items num_tasks by_row g.
Proof.
  intros Hg. unfold visited, line, group_of, range. destruct by_row.
  - by apply filter_row.
  - rewrite filter_column. rewrite decide_True by lia. done.
Qed.

Lemma sel_state_nil preds targets by_row nv :
  sel_state preds targets by_row nv [] = (replicate nv [], replicate nv []).
Proof.
  unfold sel_state, sel, range.
  assert (H : ∀ (A : Type) a, (λ _ : nat, @nil A) <$> seq a nv = replicate nv (@nil A)).
  { intros A. induction nv as [|n IH]; intros a; simpl; [done|]. by rewrite IH. }
  simpl. by rewrite !H.
Qed.

(** What [select_valid_values] returns, in one equation: it fails when a
    visited cell cannot be read, and returns the groups of the
    specification otherwise. *)
Lemma select_valid_values_eq preds targets num_tasks by_row :
  select_valid_values preds targets num_tasks by_row =
    if forallb (cell_ok preds targets) (visited (length preds) num_tasks)
    then Ok (selected preds targets num_tasks by_row)
    else Raise IndexError.
Proof.
  unfold select_valid_values.
  set (nv := if by_row then length preds else num_tasks).
  rewrite (for_each_nested (range num_tasks) (range (length preds))
             (select_cell preds targets by_row)).
  rewrite <- (sel_state_nil preds targets by_row nv).
  fold (visited (length preds) num_tasks).
  rewrite for_each_cells.
  - destruct (forallb _ _); [|done]. f_equal. simpl.
    unfold sel_state, selected, sel. fold nv. f_equal.
    + apply list_fmap_ext. intros k g [-> Hg]%lookup_seq.
      by rewrite filter_group_visited.
    + apply list_fmap_ext. intros k g [-> Hg]%lookup_seq.
      by rewrite filter_group_visited.
  - apply Forall_forall. intros c [H1 H2]%elem_of_visited.
    subst nv. unfold group_of. by destruct by_row.
Qed.

(** ** The loop over the groups *)

Lemma append_result_lookup r k x k' :
  append_result r k x !! k' =
    if decide (k = k') then Some (default [] (r !! k) ++ [x]) else r !! k'.
Proof. unfold append_result. by rewrite lookup_insert. Qed.

Lemma append_nans_lookup (mtf : list (string * metric_func)) r k :
  NoDup mtf.*1 →
  append_nans mtf r !! k =
    if decide (k ∈ mtf.*1) then Some (default [] (r !! k) ++ [nan]) else r !! k.
Proof.
  unfold append_nans. revert r. induction mtf as [|[k0 f0] mtf IH]; intros r Hnd.
  - done.
  - rewrite fmap_cons in Hnd. apply NoDup_cons in Hnd as [Hk0 Hnd].
    cbn [foldl]. rewrite IH by done. rewrite !append_result_lookup, fmap_cons.
    cbn [fst].
    destruct (decide (k0 = k)) as [->|Hne].
    + rewrite decide_False by done.
      rewrite (decide_True (P := k ∈ k :: mtf.*1)); [done|]. apply list_elem_of_here.
    + destruct (decide (k ∈ mtf.*1)) as [Hin|Hnin].
      * rewrite (decide_True (P := k ∈ k0 :: mtf.*1)); [done|].
        by apply list_elem_of_further.
      * rewrite (decide_False (P := k ∈ k0 :: mtf.*1)); [done|].
        intros [?|?]%elem_of_cons; congruence.
Qed.

Lemma index_ok {A} (l : list A) i a : index l i = Ok a → l !! i = Some a.
Proof. unfold index. destruct (l !! i); [by intros [= ->]|done]. Qed.

Lemma call_metric_ok dt vps vts i k f r tr r' :
  call_metric dt vps vts i (k, f) r = (tr, Ok r') →
  ∃ ts ps ls x, vts !! i = Some ts ∧ vps !! i = Some ps ∧
    labels_of dt ps = Ok ls ∧ f ts ps ls = Ok x ∧
    tr = [Invoked k ts ps ls] ∧ r' = append_result r k x.
Proof.
  unfold call_metric, labels_of. destruct (String.eqb dt "multiclass").
  - intros (ts & Hts%index_ok & H)%ebind_lift_ok.
    apply ebind_lift_ok in H as (ps & Hps%index_ok & H).
    apply ebind_lift_ok in H as (ps' & Hps'%index_ok & H).
    apply ebind_lift_ok in H as (first & Hfirst & H).
    apply ebind_lift_ok in H as (n & Hn & H).
    apply ebind_ok in H as (tr1 & [] & tr2 & Hemit & H & ->).
    apply ebind_lift_ok in H as (x & Hx & H).
    unfold emit in Hemit. unfold eret in H.
    injection Hemit as <-. injection H as <- <-.
    assert (ps' = ps) as -> by congruence.
    exists ts, ps, (Some (range n)), x. rewrite Hfirst. simpl. rewrite Hn. done.
  - intros (ts & Hts%index_ok & H)%ebind_lift_ok.
    apply ebind_lift_ok in H as (ps & Hps%index_ok & H).
    apply ebind_ok in H as (tr1 & [] & tr2 & Hemit & H & ->).
    apply ebind_lift_ok in H as (x & Hx & H).
    unfold emit in Hemit. unfold eret in H.
    injection Hemit as <-. injection H as <- <-.
    by exists ts, ps, None, x.
Qed.

Lemma call_metrics_ok dt vps vts i mtf r tr r' :
  efor_each mtf (call_metric dt vps vts i) r = (tr, Ok r') →
  NoDup mtf.*1 →
  recorded mtf (λ f x, ∃ ts ps, vts !! i = Some ts ∧ vps !! i = Some ps ∧
                         metric_value dt f ts ps = Ok x) r r'.
Proof.
  revert r tr. induction mtf as [|[k0 f0] mtf IH]; intros r tr Hrun Hnd.
  - injection Hrun as <- <-. split; [done|]. intros k f Hin. by apply elem_of_nil in Hin.
  - rewrite fmap_cons in Hnd. apply NoDup_cons in Hnd as [Hk0 Hnd]. cbn [fst] in Hk0.
    cbn [efor_each] in Hrun.
    apply ebind_ok in Hrun as (tr1 & r1 & tr2 & Hcall & Hrest & ->).
    apply call_metric_ok in Hcall as (ts & ps & ls & x & Hts & Hps & Hls & Hx & -> & ->).
    destruct (IH _ _ Hrest Hnd) as [Hout Hin]. split.
    + intros k Hk. rewrite fmap_cons, not_elem_of_cons in Hk. destruct Hk as [Hne Hk].
      rewrite Hout by done. rewrite append_result_lookup. by rewrite decide_False.
    + intros k f [[= -> ->]|Hkf]%elem_of_cons.
      * exists x. split.
        { exists ts, ps. unfold metric_value. rewrite Hls. done. }
        rewrite Hout by done. rewrite append_result_lookup. by rewrite decide_True.
      * destruct (Hin k f Hkf) as (x' & Hval & Hlook). exists x'. split; [done|].
        rewrite Hlook. rewrite append_result_lookup. rewrite decide_False; [done|].
        intros ->. apply Hk0. apply list_elem_of_fmap. by exists (k, f).
Qed.

Lemma compute_group_ok dt mtf vps vts i r tr r' :
  compute_group dt mtf vps vts i r = (tr, Ok r') →
  NoDup mtf.*1 →
  ∃ ts, vts !! i = Some ts ∧
    if Nat.eqb (length ts) 0 then r' = r
    else recorded mtf (λ f x, ∃ ps, vps !! i = Some ps ∧
                                metric_value dt f ts ps = Ok x) r r'.
Proof.
  unfold compute_group. intros (ts & Hts%index_ok & H)%ebind_lift_ok Hnd.
  exists ts. split; [done|]. destruct (Nat.eqb (length ts) 0).
  - by injection H as <- <-.
  - destruct (call_metrics_ok _ _ _ _ _ _ _ _ H Hnd) as [Hout Hin]. split; [done|].
    intros k f Hkf. destruct (Hin k f Hkf) as (x & (ts' & ps & Hts' & Hps & Hx) & Hlook).
    assert (ts' = ts) as -> by congruence. eauto.
Qed.

Lemma process_group_ok dt by_row lg mtf vps vts i r tr r' :
  process_group dt by_row lg mtf vps vts i r = (tr, Ok r') →
  NoDup mtf.*1 →
  ∃ ts, vts !! i = Some ts ∧
    if contributes dt ts
    then recorded mtf (λ f x, ∃ ps, vps !! i = Some ps ∧
                                group_value dt f ts ps = Ok x) r r'
    else r' = r.
Proof.
  unfold process_group, contributes, group_value.
  destruct (String.eqb dt "classification") eqn:Hdt; intros Hrun Hnd.
  - apply ebind_lift_ok in Hrun as (ts & Hts%index_ok & Hrun).
    apply ebind_ok in Hrun as (tr1 & [] & tr2 & _ & Hrun & ->).
    apply ebind_lift_ok in Hrun as (ps & Hps%index_ok & Hrun).
    apply ebind_ok in Hrun as (tr3 & [] & tr4 & _ & Hrun & ->).
    exists ts. split; [done|]. cbn [orb andb].
    unfold degenerate.
    destruct ((all_eq 0 ts || all_eq 1 ts) || (all_value_eq 0 ps || all_value_eq 1 ps))
      eqn:Hdeg.
    + injection Hrun as <- <-. split.
      * intros k Hk. rewrite append_nans_lookup by done. by rewrite decide_False.
      * intros k f Hkf. exists nan. split.
        { exists ps. by rewrite Hdeg. }
        rewrite append_nans_lookup by done. rewrite decide_True; [done|].
        apply list_elem_of_fmap. by exists (k, f).
    + apply compute_group_ok in Hrun as (ts' & Hts' & Hrun); [|done].
      assert (ts' = ts) as -> by congruence.
      destruct ts as [|t ts]; [done|]. cbn [length Nat.eqb] in Hrun.
      destruct Hrun as [Hout Hin]. split; [done|].
      intros k f Hkf. destruct (Hin k f Hkf) as (x & (ps' & Hps' & Hx) & Hlook).
      assert (ps' = ps) as -> by congruence.
      exists x. split; [|done]. exists ps. by rewrite Hdeg.
  - apply compute_group_ok in Hrun as (ts & Hts & Hrun); [|done].
    exists ts. split; [done|]. cbn [orb andb].
    by destruct (Nat.eqb (length ts) 0).
Qed.

Lemma metric_loop_ok dt by_row lg mtf vps vts a n r tr r' :
  efor_each (seq a n) (process_group dt by_row lg mtf vps vts) r = (tr, Ok r') →
  NoDup mtf.*1 →
  (∀ k, k ∉ mtf.*1 → r' !! k = r !! k) ∧
  ∀ k f, (k, f) ∈ mtf →
    ∃ xs, r' !! k = extend (r !! k) xs ∧
      Forall2 (value_at dt f vps vts)
        (filter (λ i, contributes_at dt vts i) (seq a n)) xs.
Proof.
  revert a r tr. induction n as [|n IH]; intros a r tr Hrun Hnd.
  - injection Hrun as <- <-. split; [done|]. intros k f _. exists []. split; [done|].
    constructor.
  - cbn [seq efor_each] in Hrun.
    apply ebind_ok in Hrun as (tr1 & r1 & tr2 & Hbody & Hrest & ->).
    apply process_group_ok in Hbody as (ts & Hts & Hbody); [|done].
    destruct (IH _ _ _ Hrest Hnd) as [Hout Hin].
    assert (Hca : contributes_at dt vts a = contributes dt ts).
    { unfold contributes_at. by rewrite Hts. }
    cbn [seq]. rewrite filter_cons. destruct (contributes dt ts) eqn:Hc.
    + destruct Hbody as [Hout1 Hin1]. split.
      * intros k Hk. by rewrite Hout, Hout1.
      * intros k f Hkf. destruct (Hin k f Hkf) as (xs & Hlook & Hxs).
        destruct (Hin1 k f Hkf) as (x & (ps & Hps & Hx) & Hlook1).
        exists (x :: xs). split.
        { rewrite Hlook, Hlook1. destruct xs as [|x' xs]; [done|]. simpl.
          by rewrite <- app_assoc. }
        rewrite decide_True by (by rewrite Hca). constructor; [|done].
        by exists ts, ps.
    + subst r1. split; [done|]. intros k f Hkf.
      destruct (Hin k f Hkf) as (xs & Hlook & Hxs). exists xs. split; [done|].
      rewrite decide_False; [done|]. rewrite Hca. simpl. tauto.
Qed.

(** ** The dictionary of metric functions *)

Lemma string_length_append a b :
  String.length (String.append a b) = String.length a + String.length b.
Proof. induction a as [|c a IH]; simpl; [done|]. by rewrite IH. Qed.

Lemma append_suffix_inj s a b : String.append a s = String.append b s → a = b.
Proof.
  revert b. induction a as [|c a IH]; intros [|c' b] H; simpl in *.
  - done.
  - apply (f_equal String.length) in H. simpl in H.
    rewrite !string_length_append in H. simpl in H. lia.
  - apply (f_equal String.length) in H. simpl in H.
    rewrite !string_length_append in H. simpl in H. lia.
  - injection H as -> H. f_equal. by apply IH.
Qed.

Lemma metric_key_inj by_row : Inj (=) (=) (metric_key by_row).
Proof. intros a b H. by apply append_suffix_inj in H. Qed.

Lemma dict_set_keys {V} (d : list (string * V)) k v :
  (dict_set d k v).*1 = if decide (k ∈ d.*1) then d.*1 else d.*1 ++ [k].
Proof.
  induction d as [|[k' v'] d IH]; [done|]. cbn [dict_set].
  destruct (String.eqb_spec k' k) as [->|Hne].
  - rewrite !fmap_cons. cbn [fst]. rewrite decide_True; [done|]. apply list_elem_of_here.
  - rewrite !fmap_cons. cbn [fst]. rewrite IH.
    destruct (decide (k ∈ d.*1)) as [Hin|Hnin].
    + rewrite decide_True; [done|]. by apply list_elem_of_further.
    + rewrite decide_False; [done|]. intros [?|?]%elem_of_cons; congruence.
Qed.

Lemma dict_set_NoDup {V} (d : list (string * V)) k v :
  NoDup d.*1 → NoDup (dict_set d k v).*1.
Proof.
  intros Hnd. rewrite dict_set_keys. case_decide; [done|].
  apply NoDup_app. split; [done|]. split; [|apply NoDup_singleton].
  intros x Hx Hx'%list_elem_of_singleton. by subst.
Qed.

Lemma elem_of_dict_set {V} (d : list (string * V)) k v k' v' :
  (k', v') ∈ dict_set d k v → (k' = k ∧ v' = v) ∨ (k', v') ∈ d.
Proof.
  induction d as [|[k0 v0] d IH]; cbn [dict_set].
  - intros [= -> ->]%list_elem_of_singleton. by left.
  - destruct (String.eqb_spec k0 k) as [->|Hne].
    + intros [[= -> ->]|Hin]%elem_of_cons; [by left|]. right. by apply list_elem_of_further.
    + intros [[= -> ->]|Hin]%elem_of_cons; [right; apply list_elem_of_here|].
      destruct (IH Hin) as [?|?]; [by left|]. right. by apply list_elem_of_further.
Qed.

Section registry.
Variable get_metric_func : string → result metric_func.

Lemma build_metric_to_func_ok by_row metrics d mtf :
  build_metric_to_func get_metric_func by_row metrics d = Ok mtf →
  NoDup d.*1 →
  (∀ k f, (k, f) ∈ d → ∃ m, k = metric_key by_row m ∧ get_metric_func m = Ok f) →
  NoDup mtf.*1 ∧
  (∀ k f, (k, f) ∈ mtf → ∃ m, k = metric_key by_row m ∧ get_metric_func m = Ok f) ∧
  (∀ k, k ∈ mtf.*1 ↔ k ∈ d.*1 ∨ k ∈ metric_key by_row <$> metrics).
Proof.
  revert d. induction metrics as [|m metrics IH]; intros d Hrun Hnd Hd.
  - injection Hrun as <-. split; [done|]. split; [done|]. intros k.
    rewrite fmap_nil, elem_of_nil. tauto.
  - cbn [build_metric_to_func] in Hrun. apply rbind_ok in Hrun as (f & Hf & Hrun).
    apply IH in Hrun as (Hnd' & Hval & Hkeys).
    + split; [done|]. split; [done|]. intros k. rewrite Hkeys, dict_set_keys, fmap_cons.
      rewrite elem_of_cons. case_decide as Hin.
      * split; [tauto|]. intros [?|[->|?]]; tauto.
      * rewrite elem_of_app, list_elem_of_singleton. tauto.
    + by apply dict_set_NoDup.
    + intros k f' [[-> ->]|Hin]%elem_of_dict_set; eauto.
Qed.

Lemma metric_to_func_spec by_row metrics mtf :
  build_metric_to_func get_metric_func by_row metrics [] = Ok mtf →
  NoDup mtf.*1 ∧
  (∀ k, k ∈ mtf.*1 ↔ k ∈ metric_key by_row <$> metrics) ∧
  (∀ m, m ∈ metrics → ∃ f, get_metric_func m = Ok f ∧ (metric_key by_row m, f) ∈ mtf).
Proof.
  intros Hrun. apply build_metric_to_func_ok in Hrun as (Hnd & Hval & Hkeys).
  - split; [done|]. split.
    + intros k. rewrite Hkeys. rewrite fmap_nil, elem_of_nil. tauto.
    + intros m Hm. assert (Hk : metric_key by_row m ∈ mtf.*1).
      { apply Hkeys. right. apply list_elem_of_fmap. eauto. }
      apply list_elem_of_fmap in Hk as ([k f] & Hk & Hin). cbn [fst] in Hk. subst k.
      destruct (Hval _ _ Hin) as (m' & Heq & Hf). apply metric_key_inj in Heq as <-.
      eauto.
  - constructor.
  - intros k f Hin. by apply elem_of_nil in Hin.
Qed.
End registry.

(** ** The logger *)

Section logger.
Variable get_metric_func : string → result metric_func.
Variable lg : Logger.

Lemma rerouted_refl_lift {A} (r : result A) : rerouted lg (lift r) (lift r).
Proof. done. Qed.

Lemma rerouted_eret {A} (a : A) : rerouted lg (eret a) (eret a).
Proof. done. Qed.

Lemma rerouted_info msg : rerouted lg (info None msg) (info (Some lg) msg).
Proof. done. Qed.

Lemma rerouted_invoked k ts ps ls :
  rerouted lg (emit (Invoked k ts ps ls)) (emit (Invoked k ts ps ls)).
Proof. done. Qed.

Lemma rerouted_ebind {A B} (m1 m2 : M A) (k1 k2 : A → M B) :
  rerouted lg m1 m2 → (∀ a, rerouted lg (k1 a) (k2 a)) →
  rerouted lg (ebind m1 k1) (ebind m2 k2).
Proof.
  unfold rerouted. destruct m1 as [tr [a|e]]; simpl; intros -> Hk; simpl; [|done].
  rewrite (Hk a). destruct (k1 a) as [tr' r]; simpl. by rewrite fmap_app.
Qed.

Lemma rerouted_efor_each {A S} (xs : list A) (b1 b2 : A → S → M S) s :
  (∀ x s, rerouted lg (b1 x s) (b2 x s)) →
  rerouted lg (efor_each xs b1 s) (efor_each xs b2 s).
Proof.
  intros Hb. revert s. induction xs as [|x xs IH]; intros s; simpl; [done|].
  apply rerouted_ebind; auto.
Qed.

Create HintDb reroute.
#[local] Hint Resolve rerouted_refl_lift rerouted_eret rerouted_info
  rerouted_invoked : reroute.

Ltac reroute_step :=
  first [ apply rerouted_ebind; [|intros ?]
        | apply rerouted_efor_each; intros ? ?
        | solve [auto with reroute] ].

Lemma rerouted_call_metric dt vps vts i kf r :
  rerouted lg (call_metric dt vps vts i kf r) (call_metric dt vps vts i kf r).
Proof.
  unfold call_metric. destruct kf as [key func].
  destruct (String.eqb dt "multiclass"); repeat reroute_step.
Qed.

Lemma rerouted_compute_group dt mtf vps vts i r :
  rerouted lg (compute_group dt mtf vps vts i r) (compute_group dt mtf vps vts i r).
Proof.
  unfold compute_group. reroute_step; [auto with reroute|].
  destruct (Nat.eqb _ _); [auto with reroute|].
  apply rerouted_efor_each. intros. apply rerouted_call_metric.
Qed.

Lemma rerouted_process_group dt by_row mtf vps vts i r :
  rerouted lg (process_group dt by_row None mtf vps vts i r)
    (process_group dt by_row (Some lg) mtf vps vts i r).
Proof.
  unfold process_group.
  destruct (String.eqb dt "classification"); [|apply rerouted_compute_group].
  repeat (apply rerouted_ebind; [|intros ?]); auto with reroute.
  - destruct (_ && _); auto with reroute.
  - destruct (_ && _); auto with reroute.
  - destruct (_ || _); auto using rerouted_compute_group with reroute.
Qed.

Lemma rerouted__evaluate_predictions preds targets n metrics dt by_row :
  rerouted lg
    (_evaluate_predictions get_metric_func preds targets n metrics dt by_row None)
    (_evaluate_predictions get_metric_func preds targets n metrics dt by_row (Some lg)).
Proof.
  unfold _evaluate_predictions. destruct (Nat.eqb _ _); [auto with reroute|].
  repeat (apply rerouted_ebind; [|intros ?]); auto with reroute.
  - apply rerouted_efor_each. intros. apply rerouted_process_group.
  - destruct by_row; auto with reroute.
Qed.

Lemma rerouted_evaluate_predictions preds targets n metrics dt by_row :
  rerouted lg
    (evaluate_predictions get_metric_func preds targets n metrics dt by_row None)
    (evaluate_predictions get_metric_func preds targets n metrics dt by_row
       (Some lg)).
Proof.
  unfold evaluate_predictions.
  apply rerouted_ebind; [apply rerouted__evaluate_predictions|intros ?].
  destruct by_row; auto with reroute.
  apply rerouted_ebind; [apply rerouted__evaluate_predictions|intros ?].
  auto with reroute.
Qed.

End logger.

(** ** Whole calls *)

Lemma Forall2_impl_elem {A B} (R R' : A → B → Prop) l k :
  Forall2 R l k → (∀ a b, a ∈ l → R a b → R' a b) → Forall2 R' l k.
Proof.
  induction 1 as [|a b l k HR HF IH]; intros Himp; constructor.
  - apply Himp; [apply list_elem_of_here|done].
  - apply IH. intros a' b' Hin. apply Himp. by apply list_elem_of_further.
Qed.

Lemma nan_results_lookup metrics n k :
  nan_results metrics n !! k =
    if decide (k ∈ metrics) then Some (replicate n nan) else None.
Proof.
  unfold nan_results.
  assert (H : ∀ r : gmap string (list float),
    foldl (λ r metric, <[metric := replicate n nan]> r) r metrics !! k =
      if decide (k ∈ metrics) then Some (replicate n nan) else r !! k).
  { induction metrics as [|m metrics IH]; intros r; [done|]. cbn [foldl].
    rewrite IH, lookup_insert.
    destruct (decide (k ∈ metrics)) as [Hin|Hnin].
    - rewrite (decide_True (P := k ∈ m :: metrics)); [done|].
      by apply list_elem_of_further.
    - destruct (decide (m = k)) as [->|Hne].
      + rewrite (decide_True (P := k ∈ k :: metrics)); [done|]. apply list_elem_of_here.
      + rewrite (decide_False (P := k ∈ m :: metrics)); [done|].
        intros [?|?]%elem_of_cons; congruence. }
  by rewrite H.
Qed.

Section runs.
Variable get_metric_func : string → result metric_func.

Lemma _evaluate_predictions_empty targets n metrics dt by_row lg :
  _evaluate_predictions get_metric_func [] targets n metrics dt by_row lg =
    ([], Ok (nan_results metrics n)).
Proof. done. Qed.

Lemma _evaluate_predictions_ok preds targets n metrics dt by_row lg tr res :
  preds ≠ [] →
  _evaluate_predictions get_metric_func preds targets n metrics dt by_row lg
    = (tr, Ok res) →
  ∃ mtf loop_res,
    build_metric_to_func get_metric_func by_row metrics [] = Ok mtf ∧
    select_valid_values preds targets n by_row
      = Ok (selected preds targets n by_row) ∧
    metric_loop dt by_row lg mtf (selected preds targets n by_row).1
      (selected preds targets n by_row).2 (length preds) = (tr, Ok loop_res) ∧
    res = if by_row then (λ values, [nanmean values]) <$> loop_res
          else loop_res.
Proof.
  intros Hne. unfold _evaluate_predictions.
  destruct preds as [|p preds]; [done|]. cbn [length Nat.eqb].
  intros (mtf & Hmtf & H)%ebind_lift_ok.
  apply ebind_lift_ok in H as (valid & Hsel & H).
  apply ebind_ok in H as (tr1 & loop_res & tr2 & Hloop & H & ->).
  exists mtf, loop_res. split; [done|].
  assert (Hvalid : valid = selected (p :: preds) targets n by_row).
  { rewrite select_valid_values_eq in Hsel.
    destruct (forallb _ _); [by injection Hsel|done]. }
  subst valid. split; [done|].
  destruct by_row; injection H as <- <-; by rewrite app_nil_r.
Qed.

(** The entries of every key after a call on a non-empty grid. *)
Lemma _evaluate_predictions_entries preds targets n metrics dt by_row lg tr res :
  preds ≠ [] →
  _evaluate_predictions get_metric_func preds targets n metrics dt by_row lg
    = (tr, Ok res) →
  let groups := selected preds targets n by_row in
  (∀ k, k ∉ metric_key by_row <$> metrics → res !! k = None) ∧
  ∀ m, m ∈ metrics →
    ∃ f xs, get_metric_func m = Ok f ∧
      Forall2 (value_at dt f groups.1 groups.2)
        (filter (λ i, contributes_at dt groups.2 i) (range (length preds))) xs ∧
      res !! metric_key by_row m =
        if by_row then (match xs with [] => None | _ => Some [nanmean xs] end)
        else extend None xs.
Proof.
  intros Hne Hrun groups.
  destruct (_evaluate_predictions_ok _ _ _ _ _ _ _ _ _ Hne Hrun)
    as (mtf & loop_res & Hmtf & _ & Hloop & ->).
  destruct (metric_to_func_spec _ _ _ _ Hmtf) as (Hnd & Hkeys & Hfun).
  destruct (metric_loop_ok _ _ _ _ _ _ _ _ _ _ _ Hloop Hnd) as [Hout Hin].
  split.
  - intros k Hk. rewrite <- Hkeys in Hk. specialize (Hout k Hk).
    rewrite lookup_empty in Hout. destruct by_row; [|done].
    by rewrite lookup_fmap, Hout.
  - intros m Hm. destruct (Hfun m Hm) as (f & Hf & Hkf).
    destruct (Hin _ _ Hkf) as (xs & Hlook & Hxs). rewrite lookup_empty in Hlook.
    exists f, xs. split; [done|]. split; [done|].
    destruct by_row; [|done]. rewrite lookup_fmap, Hlook. by destruct xs.
Qed.

End runs.

Section lengths.
Variable get_metric_func : string → result metric_func.

Lemma evaluate_predictions_empty targets num_tasks metrics dt by_row lg :
  evaluate_predictions get_metric_func [] targets num_tasks metrics dt by_row lg
    = ([], Ok (nan_results metrics num_tasks)).
Proof.
  unfold evaluate_predictions. rewrite !_evaluate_predictions_empty.
  destruct by_row; [|done]. cbn. by rewrite (idemp_L (∪)).
Qed.


Lemma entry_length preds targets n metrics dt by_row lg tr res k l :
  _evaluate_predictions get_metric_func preds targets n metrics dt by_row lg
    = (tr, Ok res) →
  res !! k = Some l →
  length l =
    if decide (preds = []) then n
    else if by_row then 1
    else length (filter (λ i, contributes_at dt
                                (selected preds targets n by_row).2 i)
                        (range (length preds))).
Proof.
  intros Hrun Hk. destruct (decide (preds = [])) as [->|Hne].
  - rewrite _evaluate_predictions_empty in Hrun. injection Hrun as <- <-.
    rewrite nan_results_lookup in Hk. case_decide; [|done].
    injection Hk as <-. by rewrite length_replicate.
  - destruct (_evaluate_predictions_entries _ _ _ _ _ _ _ _ _ _ Hne Hrun)
      as [Hout Hin].
    destruct (decide (k ∈ metric_key by_row <$> metrics)) as [Hkey|Hkey].
    2:{ rewrite Hout in Hk by done. done. }
    apply list_elem_of_fmap in Hkey as (m & -> & Hm).
    destruct (Hin m Hm) as (f & xs & _ & Hxs & Hlook).
    rewrite Hlook in Hk. destruct by_row.
    + destruct xs; [done|]. by injection Hk as <-.
    + destruct xs as [|x xs]; [done|]. injection Hk as <-.
      by rewrite (Forall2_length _ _ _ Hxs).
Qed.


End lengths.

(** ** Degenerate groups *)

Lemma trace_ebind {A B} (P : event → Prop) (m : M A) (k : A → M B) :
  Forall P m.1 → (∀ a, m.2 = Ok a → Forall P (k a).1) →
  Forall P (ebind m k).1.
Proof.
  destruct m as [tr [a|e]]; simpl; intros Hm Hk; [|done].
  specialize (Hk a eq_refl). destruct (k a) as [tr' r]. simpl in *.
  by apply Forall_app.
Qed.

Lemma trace_efor_each {A S} (P : event → Prop) (xs : list A)
    (body : A → S → M S) s :
  (∀ x s, Forall P (body x s).1) → Forall P (efor_each xs body s).1.
Proof.
  intros Hbody. revert s. induction xs as [|x xs IH]; intros s; simpl.
  - constructor.
  - apply trace_ebind; auto.
Qed.

Lemma trace_lift {A} (P : event → Prop) (r : result A) : Forall P (lift r).1.
Proof. constructor. Qed.

Lemma trace_eret {A} (P : event → Prop) (a : A) : Forall P (eret a).1.
Proof. constructor. Qed.

Lemma lift_index_ok {A} (l : list A) i a : (lift (index l i)).2 = Ok a → l !! i = Some a.
Proof. simpl. apply index_ok. Qed.



Lemma trace_info (P : event → Prop) lg msg :
  P (info_event lg msg) → Forall P (info lg msg).1.
Proof. by repeat constructor. Qed.


Section degenerate_groups.
Variable get_metric_func : string → result metric_func.





End degenerate_groups.

(** ** What the selector returns *)

Lemma elem_of_line num_items num_tasks (by_row : bool) g (c : cell) :
  c ∈ line num_items num_tasks by_row g ↔
    if by_row then c.1 = g ∧ c.2 < num_tasks else c.2 = g ∧ c.1 < num_items.
Proof.
  unfold line, range. destruct by_row; rewrite list_elem_of_fmap.
  - split.
    + intros (i & -> & Hi%elem_of_seq). simpl. lia.
    + intros [<- Hlt]. exists c.2. split; [by destruct c|]. apply elem_of_seq. lia.
  - split.
    + intros (j & -> & Hj%elem_of_seq). simpl. lia.
    + intros [<- Hlt]. exists c.1. split; [by destruct c|]. apply elem_of_seq. lia.
Qed.

Lemma NoDup_line num_items num_tasks by_row g :
  NoDup (line num_items num_tasks by_row g).
Proof.
  unfold line, range. destruct by_row.
  - apply NoDup_fmap_2; [|apply NoDup_seq]. by intros ?? [=].
  - apply NoDup_fmap_2; [|apply NoDup_seq]. by intros ?? [=].
Qed.

Lemma well_shaped_cell preds targets num_tasks (c : cell) :
  well_shaped preds targets num_tasks →
  c.1 < length preds → c.2 < num_tasks →
  is_Some (pred_at preds c) ∧ is_Some (target_at targets c).
Proof.
  intros (Hlen & Hp & Ht) H1 H2. unfold pred_at, target_at. split.
  - destruct (lookup_lt_is_Some_2 preds c.1 H1) as [row Hrow]. rewrite Hrow. simpl.
    apply lookup_lt_is_Some_2.
    rewrite Forall_forall in Hp. rewrite (Hp row); [done|].
    by apply list_elem_of_lookup_2 in Hrow.
  - rewrite Hlen in H1.
    destruct (lookup_lt_is_Some_2 targets c.1 H1) as [row Hrow]. rewrite Hrow. simpl.
    apply lookup_lt_is_Some_2.
    rewrite Forall_forall in Ht. rewrite (Ht row); [done|].
    by apply list_elem_of_lookup_2 in Hrow.
Qed.

Lemma well_shaped_visited preds targets num_tasks :
  well_shaped preds targets num_tasks →
  forallb (cell_ok preds targets) (visited (length preds) num_tasks) = true.
Proof.
  intros Hws. apply forallb_forall. intros c Hc%list_elem_of_In.
  apply elem_of_visited in Hc as [H1 H2].
  destruct (well_shaped_cell _ _ _ c Hws H1 H2) as [[p Hp] [t Ht]].
  unfold cell_ok. rewrite Ht. destruct t; [|done]. rewrite Hp.
  apply bool_decide_eq_true_2. eauto.
Qed.

Lemma group_preds_of_cells preds targets (cells : list cell) :
  Forall (λ c, is_Some (pred_at preds c)) cells →
  Forall2 (λ c p, pred_at preds c = Some p)
    (filter (λ c, present targets c) cells)
    (omap (valid_pred preds targets) cells).
Proof.
  induction 1 as [|c cells [p Hp] _ IH]; [constructor|].
  rewrite filter_cons. csimpl. unfold valid_pred at 1.
  destruct (present targets c) eqn:Hc.
  - rewrite decide_True by done. rewrite Hp. by constructor.
  - rewrite decide_False by (simpl; tauto). done.
Qed.

Lemma group_targets_of_cells targets (cells : list cell) :
  Forall2 (λ c t, target_at targets c = Some (Some t))
    (filter (λ c, present targets c) cells)
    (omap (valid_target targets) cells).
Proof.
  induction cells as [|c cells IH]; [constructor|].
  rewrite filter_cons. csimpl. unfold valid_target at 1.
  destruct (present targets c) eqn:Hc; unfold present in Hc;
    destruct (target_at targets c) as [[t|]|] eqn:Ht; try done; simpl.
  by constructor.
Qed.

Lemma forallb_false_elem {A} (f : A → bool) (l : list A) :
  forallb f l = false ↔ ∃ x, x ∈ l ∧ f x = false.
Proof.
  induction l as [|a l IH]; simpl.
  - split; [done|]. intros (x & Hx & _). by apply elem_of_nil in Hx.
  - rewrite andb_false_iff, IH. split.
    + intros [Ha|(x & Hx & Hf)]; [exists a|exists x]; split; try done.
      * apply list_elem_of_here.
      * by apply list_elem_of_further.
    + intros (x & [->|Hx]%elem_of_cons & Hf); [by left|]. right. eauto.
Qed.



(** ** The entries of the result *)

Lemma string_append_nil_r m : String.append m "" = m.
Proof.
  induction m as [|c m IH]; [done|].
  change (String c (String.append m "") = String c m). by rewrite IH.
Qed.

Lemma metric_key_false m : metric_key false m = m.
Proof. apply string_append_nil_r. Qed.

Lemma filter_ext_elem {A} (P Q : A → Prop) `{∀ x, Decision (P x)}
    `{∀ x, Decision (Q x)} (l : list A) :
  (∀ x, x ∈ l → P x ↔ Q x) → filter P l = filter Q l.
Proof.
  induction l as [|a l IH]; intros Hext; [done|].
  rewrite !filter_cons.
  rewrite IH by (intros x Hx; apply Hext; by apply list_elem_of_further).
  destruct (decide (P a)) as [HP|HP]; destruct (decide (Q a)) as [HQ|HQ];
    try done; exfalso; apply (Hext a (list_elem_of_here _ _)) in HP || apply HP;
    try done; by apply (Hext a (list_elem_of_here _ _)).
Qed.

Lemma selected_lookup preds targets num_tasks (by_row : bool) g :
  g < (if by_row then length preds else num_tasks) →
  (selected preds targets num_tasks by_row).1 !! g
    = Some (group_preds preds targets (length preds) num_tasks by_row g) ∧
  (selected preds targets num_tasks by_row).2 !! g
    = Some (group_targets targets (length preds) num_tasks by_row g).
Proof.
  intros Hg. unfold selected, range. cbn [fst snd].
  rewrite !list_lookup_fmap, lookup_seq_lt by done. done.
Qed.

Section entries.
Variable get_metric_func : string → result metric_func.

Lemma evaluate_predictions_task_axis preds targets n metrics dt lg :
  evaluate_predictions get_metric_func preds targets n metrics dt false lg =
  _evaluate_predictions get_metric_func preds targets n metrics dt false lg.
Proof.
  unfold evaluate_predictions.
  destruct (_evaluate_predictions _ _ _ _ _ _ _ _) as [tr [r|e]]; simpl; [|done].
  by rewrite app_nil_r.
Qed.

Lemma evaluate_predictions_both_axes preds targets n metrics dt lg tr res :
  evaluate_predictions get_metric_func preds targets n metrics dt true lg
    = (tr, Ok res) →
  ∃ tr1 tr2 by_task by_row,
    _evaluate_predictions get_metric_func preds targets n metrics dt false lg
      = (tr1, Ok by_task) ∧
    _evaluate_predictions get_metric_func preds targets n metrics dt true lg
      = (tr2, Ok by_row) ∧
    tr = tr1 ++ tr2 ∧ res = by_row ∪ by_task.
Proof.
  unfold evaluate_predictions.
  intros (tr1 & by_task & tr' & H1 & H & ->)%ebind_ok.
  apply ebind_ok in H as (tr2 & by_row & tr3 & H2 & H3 & ->).
  injection H3 as <- <-. exists tr1, tr2, by_task, by_row.
  by rewrite app_nil_r.
Qed.

(** The entries of a metric after a call on a non-empty grid, in terms of
    the groups of the specification, when the loop of line 78 stays
    within the groups. *)
Lemma contributing_groups preds targets n dt (by_row : bool) :
  length preds ≤ (if by_row then length preds else n) →
  filter (λ g, contributes_at dt (selected preds targets n by_row).2 g)
    (range (length preds))
  = filter (λ g, contributes dt
                   (group_targets targets (length preds) n by_row g))
      (range (length preds)).
Proof.
  intros Hlen. apply filter_ext_elem. intros g Hg%elem_of_seq.
  destruct (selected_lookup preds targets n by_row g) as [_ Hts]; [lia|].
  unfold contributes_at. by rewrite Hts.
Qed.

Lemma entries_of_groups preds targets n metrics dt (by_row : bool) lg tr res m :
  preds ≠ [] →
  length preds ≤ (if by_row then length preds else n) →
  _evaluate_predictions get_metric_func preds targets n metrics dt by_row lg
    = (tr, Ok res) →
  m ∈ metrics →
  ∃ f xs, get_metric_func m = Ok f ∧
    Forall2 (λ g x,
               group_value dt f
                 (group_targets targets (length preds) n by_row g)
                 (group_preds preds targets (length preds) n by_row g) = Ok x)
      (filter (λ g, contributes dt
                      (group_targets targets (length preds) n by_row g))
              (range (length preds))) xs ∧
    res !! metric_key by_row m =
      if by_row then (match xs with [] => None | _ => Some [nanmean xs] end)
      else extend None xs.
Proof.
  intros Hne Hlen Hrun Hm.
  destruct (_evaluate_predictions_entries _ _ _ _ _ _ _ _ _ _ Hne Hrun)
    as [_ Hin].
  destruct (Hin m Hm) as (f & xs & Hf & Hxs & Hlook).
  exists f, xs. split; [done|]. split; [|done].
  rewrite contributing_groups in Hxs by done.
  eapply Forall2_impl_elem; [exact Hxs|].
  intros g x [_ Hg%elem_of_seq]%list_elem_of_filter
    (ts & ps & Hts & Hps & Hval).
  destruct (selected_lookup preds targets n by_row g) as [Hps' Hts']; [lia|].
  congruence.
Qed.

End entries.

(** ** Calls that return *)

Lemma succeeds_ebind {A B} (m : M A) (k : A → M B) :
  succeeds m → (∀ a, m.2 = Ok a → succeeds (k a)) → succeeds (ebind m k).
Proof.
  intros (tr & a & ->) Hk. destruct (Hk a eq_refl) as (tr' & b & Hb).
  unfold ebind. rewrite Hb. by exists (tr ++ tr'), b.
Qed.

Lemma succeeds_eret {A} (a : A) : succeeds (eret a).
Proof. by exists [], a. Qed.

Lemma succeeds_index {A} (l : list A) i : i < length l → succeeds (lift (index l i)).
Proof.
  intros [a Ha]%lookup_lt_is_Some_2. exists [], a. by rewrite (index_Some _ _ _ Ha).
Qed.

Lemma succeeds_info lg msg : succeeds (info lg msg).
Proof. by exists [info_event lg msg], tt. Qed.

Lemma succeeds_efor_each {A S} (xs : list A) (body : A → S → M S) s :
  (∀ x s, x ∈ xs → succeeds (body x s)) → succeeds (efor_each xs body s).
Proof.
  revert s. induction xs as [|x xs IH]; intros s Hbody; cbn [efor_each].
  - apply succeeds_eret.
  - apply succeeds_ebind; [apply Hbody, list_elem_of_here|].
    intros s' _. apply IH. intros x' s'' Hx'. by apply Hbody, list_elem_of_further.
Qed.

Lemma call_metric_succeeds dt vps vts i kf r :
  String.eqb dt "multiclass" = false →
  i < length vts → i < length vps → never_raises kf.2 →
  succeeds (call_metric dt vps vts i kf r).
Proof.
  intros Hdt Hts Hps Hf. unfold call_metric. destruct kf as [k f]. rewrite Hdt.
  apply succeeds_ebind; [by apply succeeds_index|]. intros ts _.
  apply succeeds_ebind; [by apply succeeds_index|]. intros ps _.
  apply succeeds_ebind; [by eexists _, _|]. intros _ _.
  destruct (Hf ts ps None) as [x Hx]. simpl in Hx. rewrite Hx.
  apply succeeds_ebind; [by eexists _, _|]. intros ? _. apply succeeds_eret.
Qed.

Lemma compute_group_succeeds dt mtf vps vts i r :
  String.eqb dt "multiclass" = false →
  i < length vts → i < length vps →
  Forall (λ kf : string * metric_func, never_raises kf.2) mtf →
  succeeds (compute_group dt mtf vps vts i r).
Proof.
  intros Hdt Hts Hps Hall. unfold compute_group.
  apply succeeds_ebind; [by apply succeeds_index|]. intros ts _.
  destruct (Nat.eqb _ _); [apply succeeds_eret|].
  apply succeeds_efor_each. intros kf r' Hkf.
  apply call_metric_succeeds; try done.
  rewrite Forall_forall in Hall. by apply Hall.
Qed.

Lemma process_group_succeeds dt by_row lg mtf vps vts i r :
  String.eqb dt "multiclass" = false →
  i < length vts → i < length vps →
  Forall (λ kf : string * metric_func, never_raises kf.2) mtf →
  succeeds (process_group dt by_row lg mtf vps vts i r).
Proof.
  intros Hdt Hts Hps Hall. unfold process_group.
  destruct (String.eqb dt "classification");
    [|by apply compute_group_succeeds].
  apply succeeds_ebind; [by apply succeeds_index|]. intros ts _.
  apply succeeds_ebind.
  { destruct (_ && _); [apply succeeds_info|apply succeeds_eret]. }
  intros _ _.
  apply succeeds_ebind; [by apply succeeds_index|]. intros ps _.
  apply succeeds_ebind.
  { destruct (_ && _); [apply succeeds_info|apply succeeds_eret]. }
  intros _ _.
  destruct (_ || _); [apply succeeds_eret|by apply compute_group_succeeds].
Qed.

Section success.
Variable get_metric_func : string → result metric_func.

Lemma build_metric_to_func_total by_row metrics d :
  known_total get_metric_func metrics →
  Forall (λ kf : string * metric_func, never_raises kf.2) d →
  ∃ mtf, build_metric_to_func get_metric_func by_row metrics d = Ok mtf ∧
         Forall (λ kf, never_raises kf.2) mtf.
Proof.
  intros Hall. revert d. induction Hall as [|m metrics (f & Hf & Htot) _ IH];
    intros d Hd; cbn [build_metric_to_func].
  - eauto.
  - rewrite Hf. cbn [rbind]. apply IH. apply Forall_forall.
    intros [k f'] [[-> ->]|Hin]%elem_of_dict_set; [done|].
    rewrite Forall_forall in Hd. by apply (Hd (k, f')).
Qed.

(** A call on well-shaped grids returns when the metric names are known,
    their functions do not raise, the dataset type is not "multiclass"
    and the loop of line 78 stays within the groups. *)
Lemma _evaluate_predictions_succeeds preds targets n metrics dt (by_row : bool) lg :
  well_shaped preds targets n →
  length preds ≤ (if by_row then length preds else n) →
  known_total get_metric_func metrics →
  String.eqb dt "multiclass" = false →
  succeeds
    (_evaluate_predictions get_metric_func preds targets n metrics dt by_row lg).
Proof.
  intros Hws Hlen Hknown Hdt. unfold _evaluate_predictions.
  destruct (Nat.eqb _ _); [apply succeeds_eret|].
  destruct (build_metric_to_func_total by_row metrics [] Hknown)
    as (mtf & -> & Hall); [constructor|].
  apply succeeds_ebind; [by eexists _, _|]. intros ? [= <-].
  rewrite select_valid_values_eq, well_shaped_visited by done.
  apply succeeds_ebind; [by eexists _, _|]. intros ? [= <-].
  apply succeeds_ebind.
  - apply succeeds_efor_each. intros i r Hi%elem_of_seq.
    apply process_group_succeeds; try done.
    + unfold selected, range. cbn [snd]. rewrite length_fmap, length_seq. lia.
    + unfold selected, range. cbn [fst]. rewrite length_fmap, length_seq. lia.
  - intros ? _. destruct by_row; apply succeeds_eret.
Qed.

Lemma evaluate_predictions_succeeds preds targets n metrics dt (by_row : bool) lg :
  well_shaped preds targets n →
  length preds ≤ n →
  known_total get_metric_func metrics →
  String.eqb dt "multiclass" = false →
  succeeds
    (evaluate_predictions get_metric_func preds targets n metrics dt by_row lg).
Proof.
  intros Hws Hlen Hknown Hdt. unfold evaluate_predictions.
  apply succeeds_ebind; [by apply _evaluate_predictions_succeeds|].
  intros by_task _. destruct by_row; [|apply succeeds_eret].
  apply succeeds_ebind; [by apply _evaluate_predictions_succeeds|].
  intros ? _. apply succeeds_eret.
Qed.

End success.

Lemma group_targets_length targets num_items num_tasks by_row g :
  length (group_targets targets num_items num_tasks by_row g)
    = length (group_cells targets num_items num_tasks by_row g).
Proof.
  unfold group_targets, group_cells. symmetry.
  eapply Forall2_length, group_targets_of_cells.
Qed.

Lemma filter_all {A} (P : A → Prop) `{∀ x, Decision (P x)} (l : list A) :
  (∀ x, x ∈ l → P x) → filter P l = l.
Proof.
  induction l as [|a l IH]; intros Hall; [done|].
  rewrite filter_cons, decide_True by apply Hall, list_elem_of_here.
  f_equal. apply IH. intros x Hx. by apply Hall, list_elem_of_further.
Qed.

Lemma contributing_filter dt targets num_items num_tasks (by_row : bool) :
  filter (λ g, contributes dt
                 (group_targets targets num_items num_tasks by_row g))
    (range (if by_row then num_items else num_tasks))
  = contributing dt targets num_items num_tasks by_row.
Proof.
  unfold contributing, contributes, labelled.
  destruct (String.eqb dt "classification"); cbn [orb].
  - by apply filter_all.
  - apply filter_ext_elem. intros g _. rewrite group_targets_length.
    by destruct (group_cells _ _ _ _ _).
Qed.

(** ** The keys of the result *)

Section keys.
Variable get_metric_func : string → result metric_func.


(** What a call on a non-empty grid returns has all the keys of the axis
    or none of them: none when no group contributes. *)
Lemma dom__evaluate_predictions preds targets n metrics dt (by_row : bool) lg
    tr res :
  preds ≠ [] →
  _evaluate_predictions get_metric_func preds targets n metrics dt by_row lg
    = (tr, Ok res) →
  ∃ any : bool,
    dom res = (if any then list_to_set (metric_key by_row <$> metrics) else ∅) ∧
    (length preds = (if by_row then length preds else n) →
     any = bool_decide (contributing dt targets (length preds) n by_row ≠ [])).
Proof.
  intros Hne Hrun.
  destruct (_evaluate_predictions_entries _ _ _ _ _ _ _ _ _ _ Hne Hrun)
    as [Hout Hin].
  pose proof (contributing_groups preds targets n dt by_row) as Hcs.
  set (groups := selected preds targets n by_row) in *.
  set (cs := filter (λ i, contributes_at dt groups.2 i) (range (length preds)))
    in *.
  assert (Hkey : ∀ m, m ∈ metrics →
            is_Some (res !! metric_key by_row m) ↔ cs ≠ []).
  { intros m Hm. destruct (Hin m Hm) as (f & xs & _ & Hxs & ->).
    apply Forall2_length in Hxs.
    destruct by_row; destruct xs as [|x xs], cs as [|c cs]; simpl in *;
      try done; split; (try done); intros [? [=]]. }
  exists (bool_decide (cs ≠ [])). split.
  - apply set_eq. intros k.
    rewrite elem_of_dom. case_bool_decide as Hne'.
    + rewrite elem_of_list_to_set. split.
      * intros Hk.
        destruct (decide (k ∈ metric_key by_row <$> metrics)); [done|].
        rewrite Hout in Hk by done. by destruct Hk.
      * intros (m & -> & Hm)%list_elem_of_fmap. by apply Hkey.
    + rewrite elem_of_empty. split; [|done]. intros Hk.
      destruct (decide (k ∈ metric_key by_row <$> metrics)) as [Hin'|Hnin].
      * apply list_elem_of_fmap in Hin' as (m & -> & Hm).
        apply Hkey in Hk; done.
      * rewrite Hout in Hk by done. by destruct Hk.
  - intros Hlen. rewrite Hcs by lia.
    rewrite <- (contributing_filter dt targets (length preds) n by_row).
    by rewrite <- Hlen.
Qed.

Lemma total_of_zeros t : Forall is_zero (terms t) → is_zero (total t).
Proof.
  induction t as [x|l IHl r IHr]; cbn [terms total].
  - by intros [H _]%Forall_cons.
  - intros [Hl Hr]%Forall_app.
    destruct (IHl Hl) as [->| ->], (IHr Hr) as [->| ->];
      [by left|by left|by left|by right].
Qed.

Lemma skip_nan_mean_all_nan xs mean :
  skip_nan_mean xs mean →
  Forall (λ x, PrimFloat.is_nan x = true) xs → mean = nan.
Proof.
  intros Hmean Hall.
  assert (Hkept : List.filter not_nan xs = []).
  { clear Hmean. induction Hall as [|x xs Hx _ IH]; [done|]. simpl.
    unfold not_nan at 1. by rewrite Hx. }
  destruct Hmean as (t & zeros & Hperm & Hz & ->).
  rewrite Hkept in *. cbn [app length float_of_nat] in *.
  rewrite <- Hperm in Hz.
  by destruct (total_of_zeros t Hz) as [->| ->].
Qed.

End keys.

(** ** Classification data *)

Lemma metric_loop_reaches dt by_row lg mtf vps vts a n r tr r' i :
  efor_each (seq a n) (process_group dt by_row lg mtf vps vts) r = (tr, Ok r') →
  NoDup mtf.*1 →
  a ≤ i < a + n → is_Some (vts !! i).
Proof.
  revert a r tr. induction n as [|n IH]; intros a r tr Hrun Hnd Hi; [lia|].
  cbn [seq efor_each] in Hrun.
  apply ebind_ok in Hrun as (tr1 & r1 & tr2 & Hbody & Hrest & ->).
  destruct (decide (i = a)) as [->|Hne].
  - apply process_group_ok in Hbody as (ts & Hts & _); [|done]. eauto.
  - apply (IH _ _ _ Hrest Hnd). lia.
Qed.

Section classification.
Variable get_metric_func : string → result metric_func.



End classification.

(** ** The bound of the loop *)

Lemma efor_each_app {A S} (xs ys : list A) (body : A → S → M S) s :
  efor_each (xs ++ ys) body s = ebind (efor_each xs body s) (efor_each ys body).
Proof.
  revert s. induction xs as [|x xs IH]; intros s; simpl.
  - by destruct (efor_each ys body s).
  - destruct (body x s) as [tr [s'|e]]; simpl; [|done].
    rewrite IH. destruct (efor_each xs body s') as [tr1 [s1|e1]]; simpl; [|done].
    destruct (efor_each ys body s1). by rewrite app_assoc.
Qed.

Lemma process_group_out_of_range dt by_row lg mtf vps vts i r :
  length vts ≤ i →
  process_group dt by_row lg mtf vps vts i r = ([], Raise IndexError).
Proof.
  intros Hi%lookup_ge_None_2. unfold process_group, compute_group.
  rewrite (index_None _ _ Hi). by destruct (String.eqb dt "classification").
Qed.

Section slip.
Variable get_metric_func : string → result metric_func.

(** Line 78 runs over [range(len(preds))] in both modes, and in task-axis
    mode there is one group per task: with more items than tasks the loop
    leaves the groups, and [evaluate_predictions], whose first pass is the
    task-axis one, raises [IndexError]. *)
Lemma more_items_than_tasks preds targets n metrics dt by_row lg :
  well_shaped preds targets n →
  n < length preds →
  known_total get_metric_func metrics →
  String.eqb dt "multiclass" = false →
  ∃ tr, evaluate_predictions get_metric_func preds targets n metrics dt
          by_row lg = (tr, Raise IndexError).
Proof.
  intros Hws Hlen Hknown Hdt.
  unfold evaluate_predictions, _evaluate_predictions.
  destruct (Nat.eqb_spec (length preds) 0) as [Hz|_]; [lia|].
  destruct (build_metric_to_func_total get_metric_func false metrics [] Hknown)
    as (mtf & -> & Hall); [constructor|].
  rewrite select_valid_values_eq, well_shaped_visited by done.
  cbn [lift ebind app].
  set (groups := selected preds targets n false).
  assert (Hvts : length groups.2 = n).
  { unfold groups, selected, range. cbn [snd]. by rewrite length_fmap, length_seq. }
  assert (Hvps : length groups.1 = n).
  { unfold groups, selected, range. cbn [fst]. by rewrite length_fmap, length_seq. }
  unfold metric_loop, range.
  replace (length preds) with (n + S (length preds - S n)) by lia.
  rewrite seq_app, efor_each_app. cbn [seq efor_each].
  destruct (succeeds_efor_each (seq 0 n)
              (process_group dt false lg mtf groups.1 groups.2) ∅)
    as (tr & r & ->).
  { intros i r Hi%elem_of_seq. apply process_group_succeeds; try done; lia. }
  cbn [ebind]. rewrite process_group_out_of_range by lia.
  cbn. eauto.
Qed.

End slip.

(** * The claims *)

Section claims.
Variable get_metric_func : string → result metric_func.

(** C1, as amended.  Task-axis mode, a non-empty well-shaped pair of grids
    with as many items as tasks, a call that returns: the sequence of a
    requested metric has, in task order, one entry per task that
    contributes; every task contributes when the dataset type is
    "classification" (NaN when the task is degenerate, which includes a
    task without valid targets), and otherwise the tasks that have a
    valid target do; the entry is the value of the metric function on the
    valid targets and predictions of the task; so there are at most
    [num_tasks] entries. The metric has no key when no task contributes. *)
Theorem task_axis_entries preds targets num_tasks metrics dt lg m :
  well_shaped preds targets num_tasks →
  preds ≠ [] →
  length preds = num_tasks →
  m ∈ metrics →
  let ts := group_targets targets (length preds) num_tasks false in
  let ps := group_preds preds targets (length preds) num_tasks false in
  let call := evaluate_predictions get_metric_func preds targets num_tasks
                metrics dt false lg in
  (known_total get_metric_func metrics →
   String.eqb dt "multiclass" = false → succeeds call) ∧
  ∀ tr res, call = (tr, Ok res) →
    ∃ f xs, get_metric_func m = Ok f ∧
      Forall2 (λ t x, group_value dt f (ts t) (ps t) = Ok x)
        (contributing dt targets (length preds) num_tasks false) xs ∧
      res !! m = (if xs is [] then None else Some xs) ∧
      length xs ≤ num_tasks.
Proof.
  intros Hws Hne <- Hm ts ps call. split.
  - intros Hknown Hdt. by apply evaluate_predictions_succeeds.
  - intros tr res Hrun. subst call.
    rewrite evaluate_predictions_task_axis in Hrun.
    destruct (entries_of_groups _ _ _ _ _ _ false _ _ _ m Hne (Nat.le_refl _)
                Hrun Hm) as (f & xs & Hf & Hxs & Hlook).
    rewrite metric_key_false in Hlook.
    assert (Hlen : length xs ≤ length preds).
    { rewrite <- (Forall2_length _ _ _ Hxs).
      etrans; [apply length_filter|]. unfold range. by rewrite length_seq. }
    rewrite (contributing_filter dt targets (length preds) (length preds) false)
      in Hxs.
    exists f, xs. split; [done|]. split; [done|]. split; [by destruct xs|done].
Qed.

(** C2, as amended: no shape is checked and there is no [ShapeError].
    [select_valid_values] fails exactly when, for some item [j] below
    [len(preds)] and some task [i] below [num_tasks], the target grid has
    no cell [(j, i)], or its target is present and the prediction grid has
    no cell [(j, i)]; the exception is then [IndexError].  On a non-empty
    prediction grid whose metric names are known,
    [evaluate_predictions] raises it too. *)
Theorem select_valid_values_fails_iff preds targets num_tasks by_row :
  (select_valid_values preds targets num_tasks by_row = Raise IndexError ↔
     ∃ c : cell, c.1 < length preds ∧ c.2 < num_tasks ∧
                 cell_ok preds targets c = false) ∧
  (∀ e, select_valid_values preds targets num_tasks by_row = Raise e →
        e = IndexError) ∧
  (∀ metrics dt lg mtf e,
     preds ≠ [] →
     build_metric_to_func get_metric_func false metrics [] = Ok mtf →
     select_valid_values preds targets num_tasks by_row = Raise e →
     evaluate_predictions get_metric_func preds targets num_tasks metrics dt
       by_row lg = ([], Raise e)).
Proof.
  split; [|split].
  - rewrite select_valid_values_eq.
    destruct (forallb _ _) eqn:Hall.
    + split; [done|]. intros (c & H1 & H2 & Hc).
      rewrite forallb_forall in Hall. rewrite Hall in Hc; [done|].
      apply list_elem_of_In, elem_of_visited. done.
    + split; [|done]. intros _.
      apply forallb_false_elem in Hall as (c & [H1 H2]%elem_of_visited & Hc).
      eauto.
  - intros e. rewrite select_valid_values_eq.
    destruct (forallb _ _); [done|]. by intros [= <-].
  - intros metrics dt lg mtf e Hne Hmtf Hsel.
    unfold evaluate_predictions, _evaluate_predictions.
    destruct preds as [|p preds]; [done|]. cbn [length Nat.eqb].
    rewrite Hmtf. cbn [lift ebind app].
    rewrite select_valid_values_eq in Hsel |- *.
    destruct (forallb _ _); [done|]. by injection Hsel as <-.
Qed.

(** C3, as amended: when [evaluate_predictions] returns a mapping, its
    keys are exactly the requested names if the prediction grid is empty
    (also with [metric_by_row]); otherwise they are all the requested
    names or none of them, together with, only if [metric_by_row], all
    the names suffixed with "-by-row", or none of them when no item
    contributes.  On a grid with as many items as tasks the requested
    names are absent exactly when no task contributes. *)
Theorem result_keys preds targets n metrics dt (by_row : bool) lg tr res :
  evaluate_predictions get_metric_func preds targets n metrics dt by_row lg
    = (tr, Ok res) →
  if decide (preds = []) then dom res = list_to_set metrics
  else ∃ task_any : bool,
    dom res =
      (if task_any then list_to_set metrics else ∅) ∪
      (if by_row
          && bool_decide (contributing dt targets (length preds) n true ≠ [])
       then list_to_set (metric_key true <$> metrics) else ∅) ∧
    (length preds = n →
     task_any
       = bool_decide (contributing dt targets (length preds) n false ≠ [])).
Proof.
  intros Hrun. destruct (decide (preds = [])) as [->|Hne].
  - rewrite evaluate_predictions_empty in Hrun. injection Hrun as <- <-.
    apply set_eq. intros k. rewrite elem_of_dom, nan_results_lookup.
    rewrite elem_of_list_to_set. case_decide; [|split; [by intros []|done]].
    split; [done|]. eauto.
  - assert (Hid : metric_key false <$> metrics = metrics).
    { rewrite <- (list_fmap_id metrics) at 2. apply list_fmap_ext.
      intros _ m _. apply metric_key_false. }
    destruct by_row.
    + apply evaluate_predictions_both_axes in Hrun
        as (tr1 & tr2 & by_task & by_row & H1 & H2 & -> & ->).
      apply dom__evaluate_predictions in H1 as (task_any & H1 & Htask);
        [|done].
      apply dom__evaluate_predictions in H2 as (row_any & H2 & Hrow); [|done].
      exists task_any. split; [|by intros <-; apply Htask].
      rewrite dom_union_L, H1, H2, Hid, <- (Hrow eq_refl).
      cbn [andb]. apply (comm_L (∪)).
    + rewrite evaluate_predictions_task_axis in Hrun.
      apply dom__evaluate_predictions in Hrun as (task_any & H1 & Htask);
        [|done].
      exists task_any. split; [|by intros <-; apply Htask].
      rewrite H1, Hid. cbn [andb]. by rewrite (right_id_L ∅ (∪)).
Qed.


(** C5: on an empty prediction grid [evaluate_predictions] returns, for
    every requested metric, [num_tasks] NaN values (whatever the targets,
    the dataset type, [metric_by_row] and the logger), and emits nothing. *)
Theorem empty_grid_gives_nans targets num_tasks metrics dt by_row lg :
  evaluate_predictions get_metric_func [] targets num_tasks metrics dt by_row lg
    = ([], Ok (nan_results metrics num_tasks)) ∧
  Forall (λ m, nan_results metrics num_tasks !! m
               = Some (replicate num_tasks nan)) metrics.
Proof.
  split; [apply evaluate_predictions_empty|].
  apply Forall_forall. intros m Hm. rewrite nan_results_lookup.
  by rewrite decide_True.
Qed.

(** C6, as amended: [metric_by_row], a non-empty grid and a call that
    returns.  The per-item values of a requested metric are those of the
    items that contribute, in item order: every item when the dataset
    type is "classification" (NaN for a degenerate item, which includes
    an item without valid targets), the items with a valid target
    otherwise.  When there is such a value, the entry of the metric under
    its "-by-row" key is a sequence of exactly one value, [np.nanmean] of
    the per-item values; so, [np.nanmean] being the mean with the NaN
    values left out of the sum and of the count, it is such a mean of
    them, and it is NaN when all of them are NaN.  When there is none,
    the result of the row axis has no entry for the metric. *)
Theorem row_axis_entry preds targets num_tasks metrics dt lg m :
  preds ≠ [] →
  m ∈ metrics →
  let ts := group_targets targets (length preds) num_tasks true in
  let ps := group_preds preds targets (length preds) num_tasks true in
  let call := evaluate_predictions get_metric_func preds targets num_tasks
                metrics dt true lg in
  (well_shaped preds targets num_tasks → length preds = num_tasks →
   known_total get_metric_func metrics →
   String.eqb dt "multiclass" = false → succeeds call) ∧
  ∀ tr res, call = (tr, Ok res) →
    ∃ f xs, get_metric_func m = Ok f ∧
      Forall2 (λ j x, group_value dt f (ts j) (ps j) = Ok x)
        (contributing dt targets (length preds) num_tasks true) xs ∧
      (xs ≠ [] → res !! metric_key true m = Some [nanmean xs]) ∧
      (xs = [] →
       res !! metric_key true m = None ∨ metric_key true m ∈ metrics) ∧
      ((∀ values, skip_nan_mean values (nanmean values)) →
       skip_nan_mean xs (nanmean xs) ∧
       (Forall (λ x, PrimFloat.is_nan x = true) xs → nanmean xs = nan)).
Proof.
  intros Hne Hm ts ps call. split.
  { intros Hws Hlen Hknown Hdt.
    apply evaluate_predictions_succeeds; try done. by rewrite Hlen. }
  intros tr res Hrun. subst call.
  apply evaluate_predictions_both_axes in Hrun
    as (tr1 & tr2 & by_task & by_row & H1 & H2 & -> & ->).
  destruct (entries_of_groups _ _ _ _ _ _ true _ _ _ m Hne (Nat.le_refl _) H2
              Hm)
    as (f & xs & Hf & Hxs & Hlook).
  rewrite (contributing_filter dt targets (length preds) num_tasks true) in Hxs.
  exists f, xs. split; [done|]. split; [done|].
  split; [|split].
  3:{ intros Hmean. split; [done|]. by apply skip_nan_mean_all_nan. }
  - intros Hxs'. apply lookup_union_Some_l. rewrite Hlook. by destruct xs.
  - intros ->. rewrite lookup_union_r by done.
    destruct (by_task !! metric_key true m) as [l|] eqn:Hl; [|by left]. right.
    destruct (_evaluate_predictions_entries _ _ _ _ _ _ _ _ _ _ Hne H1)
      as [Hout _].
    destruct (decide (metric_key true m ∈ metric_key false <$> metrics))
      as [Hin|Hnin].
    + apply list_elem_of_fmap in Hin as (m' & -> & Hm').
      by rewrite metric_key_false.
    + rewrite Hout in Hl by done. done.
Qed.

(** C7: on well-shaped grids [select_valid_values] returns one group per
    task (per item when [by_row]); the predictions and the targets of
    group [g] are those of the cells of [group_cells g], in that order;
    a cell whose target is present is in the group of its task (of its
    item) and in no other; a cell whose target is absent is in no group;
    and [group_cells g] has no cell twice and lists its cells in the
    order of the column (of the row) of the grid. *)
Theorem select_valid_values_partitions preds targets num_tasks (by_row : bool) :
  well_shaped preds targets num_tasks →
  let num_items := length preds in
  let num_values := if by_row then num_items else num_tasks in
  let cells := group_cells targets num_items num_tasks by_row in
  ∃ valid_preds valid_targets,
    select_valid_values preds targets num_tasks by_row
      = Ok (valid_preds, valid_targets) ∧
    Forall2 (λ g ps, Forall2 (λ c p, pred_at preds c = Some p) (cells g) ps)
      (range num_values) valid_preds ∧
    Forall2 (λ g ts,
               Forall2 (λ c t, target_at targets c = Some (Some t)) (cells g) ts)
      (range num_values) valid_targets ∧
    (∀ c : cell, c.1 < num_items → c.2 < num_tasks →
       present targets c = true →
       group_of by_row c < num_values ∧
       ∀ g, c ∈ cells g ↔ g = group_of by_row c) ∧
    (∀ (c : cell) g, present targets c = false → c ∉ cells g) ∧
    (∀ g, NoDup (cells g) ∧
          sublist (cells g) (line num_items num_tasks by_row g)).
Proof.
  intros Hws num_items num_values cells.
  exists (selected preds targets num_tasks by_row).1,
         (selected preds targets num_tasks by_row).2.
  split; [|split; [|split; [|split; [|split]]]].
  - rewrite select_valid_values_eq, well_shaped_visited by done.
    by destruct (selected _ _ _ _).
  - unfold selected. cbn [fst]. apply Forall2_fmap_r, Forall_Forall2_diag.
    apply Forall_forall. intros g Hg%elem_of_seq.
    apply group_preds_of_cells. apply Forall_forall.
    intros c Hc%elem_of_line.
    refine (proj1 (well_shaped_cell _ _ _ c Hws _ _));
      destruct by_row; subst num_values; lia.
  - unfold selected. cbn [snd]. apply Forall2_fmap_r, Forall_Forall2_diag.
    apply Forall_forall. intros g _. apply group_targets_of_cells.
  - intros c H1 H2 Hc. split.
    + unfold group_of. subst num_values. by destruct by_row.
    + intros g. subst cells. unfold group_cells.
      rewrite list_elem_of_filter, elem_of_line, Hc. unfold group_of.
      destruct by_row; naive_solver.
  - intros c g Hc. subst cells. unfold group_cells.
    rewrite list_elem_of_filter, Hc. simpl. tauto.
  - intros g. subst cells. unfold group_cells. split.
    + apply NoDup_filter, NoDup_line.
    + apply sublist_filter.
Qed.


(** C9: the result of [evaluate_predictions], a mapping or an exception,
    is the same with a logger and without one; the events are the same
    too, except that each warning goes to the logger instead of [print]. *)
Theorem logger_does_not_change_results preds targets n metrics dt by_row lg :
  let quiet := evaluate_predictions get_metric_func preds targets n metrics
                 dt by_row None in
  let loud := evaluate_predictions get_metric_func preds targets n metrics
                dt by_row (Some lg) in
  loud.2 = quiet.2 ∧ loud.1 = route lg <$> quiet.1.
Proof.
  pose proof (rerouted_evaluate_predictions get_metric_func lg preds targets n
                metrics dt by_row) as H.
  simpl. by rewrite H.
Qed.

(** C10: in the mapping returned by one call of [_evaluate_predictions]
    all the sequences have the same length; and the body of the loop,
    when it completes for a group, either leaves [results] as it is or
    appends one value under every key of [metric_to_func] and touches no
    other key. *)
Theorem results_have_one_length preds targets n metrics dt by_row lg tr res :
  _evaluate_predictions get_metric_func preds targets n metrics dt by_row lg
    = (tr, Ok res) →
  (∀ k1 k2 l1 l2,
     res !! k1 = Some l1 → res !! k2 = Some l2 → length l1 = length l2) ∧
  (∀ mtf vps vts i r tr' r',
     NoDup mtf.*1 →
     process_group dt by_row lg mtf vps vts i r = (tr', Ok r') →
     r' = r ∨ recorded mtf (λ _ _, True) r r').
Proof.
  intros Hrun. split.
  - intros k1 k2 l1 l2 H1 H2.
    rewrite (entry_length _ _ _ _ _ _ _ _ _ _ _ _ Hrun H1).
    by rewrite (entry_length _ _ _ _ _ _ _ _ _ _ _ _ Hrun H2).
  - intros mtf vps vts i r tr' r' Hnd Hbody.
    apply process_group_ok in Hbody as (ts & _ & Hbody); [|done].
    destruct (contributes dt ts); [|by left]. right.
    destruct Hbody as [Hout Hin]. split; [done|].
    intros k f Hkf. destruct (Hin k f Hkf) as (x & _ & Hlook). eauto.
Qed.

End claims.

(** * Further properties of the code *)

(** ** The bound of the loop, again *)

Section loop_bound.
Variable get_metric_func : string → result metric_func.

Lemma _evaluate_predictions_bound preds targets n metrics dt (by_row : bool) lg
    tr res :
  _evaluate_predictions get_metric_func preds targets n metrics dt by_row lg
    = (tr, Ok res) →
  length preds ≤ (if by_row then length preds else n).
Proof.
  intros Hrun. destruct by_row; [done|].
  destruct (decide (preds = [])) as [->|Hne]; [simpl; lia|].
  destruct (_evaluate_predictions_ok _ _ _ _ _ _ _ _ _ _ Hne Hrun)
    as (mtf & loop_res & Hmtf & _ & Hloop & _).
  destruct (metric_to_func_spec _ _ _ _ Hmtf) as (Hnd & _ & _).
  destruct (decide (length preds ≤ n)) as [|Hgt]; [done|].
  destruct (metric_loop_reaches _ _ _ _ _ _ _ _ _ _ _ n Hloop Hnd) as [ts Hts];
    [lia|].
  apply lookup_lt_Some in Hts. unfold selected, range in Hts. cbn [snd] in Hts.
  rewrite length_fmap, length_seq in Hts. lia.
Qed.

Lemma filter_none {A} (P : A → Prop) `{∀ x, Decision (P x)} (l : list A) :
  (∀ x, x ∈ l → ¬ P x) → filter P l = [].
Proof.
  induction l as [|a l IH]; intros Hnone; [done|].
  rewrite filter_cons, decide_False by apply Hnone, list_elem_of_here.
  apply IH. intros x Hx. by apply Hnone, list_elem_of_further.
Qed.

Lemma filter_range_le (P : nat → Prop) `{∀ x, Decision (P x)} k n :
  k ≤ n →
  filter P (range k) = filter (λ t, t < k) (filter P (range n)).
Proof.
  intros Hk. unfold range. replace n with (k + (n - k)) by lia.
  rewrite seq_app, !filter_app. cbn [Nat.add].
  rewrite (filter_all (λ t, t < k) (filter P (seq 0 k))).
  2:{ intros x [_ Hx%elem_of_seq]%list_elem_of_filter. lia. }
  assert (Hnone : filter (λ t, t < k) (filter P (seq k (n - k))) = []).
  { apply filter_none.
    intros x [_ Hx%elem_of_seq]%list_elem_of_filter. lia. }
  by rewrite Hnone, app_nil_r.
Qed.

(** X1: [evaluate_predictions] returns only if the prediction grid has at
    most [num_tasks] items: its task-axis pass, which always runs, loops
    over [range(len(preds))] and indexes the task groups with it. *)
Theorem returns_only_if_items_le_tasks preds targets num_tasks metrics dt
    by_row lg tr res :
  evaluate_predictions get_metric_func preds targets num_tasks metrics dt
    by_row lg = (tr, Ok res) →
  length preds ≤ num_tasks.
Proof.
  unfold evaluate_predictions.
  intros (tr1 & by_task & tr2 & Hrun & _)%ebind_ok.
  by apply _evaluate_predictions_bound in Hrun.
Qed.

(** X2: in a task-axis call on a non-empty grid that returns, the
    sequence of a requested metric holds, in task order, one entry per
    contributing task whose index is below the item count, and nothing
    else: the tasks from index [len(preds)] on are never evaluated. *)
Theorem entries_of_the_first_tasks preds targets num_tasks metrics dt lg tr
    res m :
  preds ≠ [] →
  evaluate_predictions get_metric_func preds targets num_tasks metrics dt
    false lg = (tr, Ok res) →
  m ∈ metrics →
  ∃ f xs, get_metric_func m = Ok f ∧
    Forall2 (λ t x,
               group_value dt f
                 (group_targets targets (length preds) num_tasks false t)
                 (group_preds preds targets (length preds) num_tasks false t)
               = Ok x)
      (filter (λ t, t < length preds)
         (contributing dt targets (length preds) num_tasks false)) xs ∧
    res !! m = (if xs is [] then None else Some xs) ∧
    length xs ≤ length preds.
Proof.
  intros Hne Hrun Hm. rewrite evaluate_predictions_task_axis in Hrun.
  pose proof (_evaluate_predictions_bound _ _ _ _ _ _ _ _ _ Hrun) as Hlen.
  destruct (entries_of_groups _ _ _ _ _ _ false _ _ _ m Hne Hlen Hrun Hm)
    as (f & xs & Hf & Hxs & Hlook).
  rewrite metric_key_false in Hlook.
  assert (Hlenxs : length xs ≤ length preds).
  { rewrite <- (Forall2_length _ _ _ Hxs).
    etrans; [apply length_filter|]. unfold range. by rewrite length_seq. }
  rewrite (filter_range_le _ _ num_tasks Hlen) in Hxs.
  rewrite (contributing_filter dt targets (length preds) num_tasks false)
    in Hxs.
  exists f, xs. split; [done|]. split; [done|]. split; [by destruct xs|done].
Qed.

End loop_bound.

(** ** evaluate *)

Section evaluate_calls.
Variable MoleculeModel : Type.
Variable MoleculeDataLoader : Type.
Variable StandardScaler : Type.
Variable predict :
  MoleculeModel → MoleculeDataLoader → option StandardScaler →
  result (grid value).
Variable loader_targets : MoleculeDataLoader → result (grid (option float)).
Variable get_metric_func : string → result metric_func.

(** X3: when [predict] returns more rows than [num_tasks], on well-shaped
    grids with known metrics that do not raise and a dataset type other
    than "multiclass", [evaluate] raises [IndexError]. *)
Theorem evaluate_more_items_than_tasks model data_loader num_tasks metrics dt
    by_row scaler lg preds targets :
  predict model data_loader scaler = Ok preds →
  loader_targets data_loader = Ok targets →
  well_shaped preds targets num_tasks →
  num_tasks < length preds →
  known_total get_metric_func metrics →
  String.eqb dt "multiclass" = false →
  ∃ tr, evaluate MoleculeModel MoleculeDataLoader StandardScaler predict
          loader_targets get_metric_func model data_loader num_tasks metrics
          dt by_row scaler lg = (tr, Raise IndexError).
Proof.
  intros Hpreds Htargets Hws Hlen Hknown Hdt. unfold evaluate.
  rewrite Hpreds, Htargets. cbn [lift ebind].
  destruct (more_items_than_tasks get_metric_func preds targets num_tasks
              metrics dt by_row lg Hws Hlen Hknown Hdt) as [tr ->].
  by exists tr.
Qed.

(** X4: when [predict] returns no prediction, [evaluate] returns, without
    any event, [num_tasks] NaNs under every requested name, whatever the
    targets, the dataset type and [metric_by_row], and whether or not the
    registry knows the names. *)
Theorem evaluate_without_predictions model data_loader num_tasks metrics dt
    by_row scaler lg targets :
  predict model data_loader scaler = Ok [] →
  loader_targets data_loader = Ok targets →
  evaluate MoleculeModel MoleculeDataLoader StandardScaler predict
    loader_targets get_metric_func model data_loader num_tasks metrics dt
    by_row scaler lg = ([], Ok (nan_results metrics num_tasks)) ∧
  ∀ m, m ∈ metrics →
    nan_results metrics num_tasks !! m = Some (replicate num_tasks nan).
Proof.
  intros Hpreds Htargets. split.
  - unfold evaluate. rewrite Hpreds, Htargets. cbn [lift ebind].
    by rewrite evaluate_predictions_empty.
  - intros m Hm. rewrite nan_results_lookup. by rewrite decide_True.
Qed.

End evaluate_calls.

(** ** The calls of the metric functions *)

Lemma trace_efor_each_elem {A S} (P : event → Prop) (xs : list A)
    (body : A → S → M S) s :
  (∀ x s, x ∈ xs → Forall P (body x s).1) → Forall P (efor_each xs body s).1.
Proof.
  revert s. induction xs as [|x xs IH]; intros s Hbody; simpl.
  - constructor.
  - apply trace_ebind; [apply Hbody, list_elem_of_here|].
    intros s' _. apply IH. intros x' s'' Hx'. by apply Hbody, list_elem_of_further.
Qed.

Lemma lift_ok {A} (r : result A) a : (lift r).2 = Ok a → r = Ok a.
Proof. done. Qed.

Lemma trace_call_metric_at dt vps vts i kf r ts :
  vts !! i = Some ts → ts ≠ [] →
  Forall (invoked_at dt [kf.1] vps vts i) (call_metric dt vps vts i kf r).1.
Proof.
  intros Hts Hne. unfold call_metric. destruct kf as [key func].
  destruct (String.eqb dt "multiclass") eqn:Hdt.
  - apply trace_ebind; [apply trace_lift|]. intros ts' Hts'%lift_index_ok.
    apply trace_ebind; [apply trace_lift|]. intros ps Hps%lift_index_ok.
    apply trace_ebind; [apply trace_lift|]. intros ps' Hps'%lift_index_ok.
    apply trace_ebind; [apply trace_lift|]. intros first Hfirst%lift_ok.
    apply trace_ebind; [apply trace_lift|]. intros k Hk%lift_ok.
    assert (ts' = ts) as -> by congruence.
    assert (ps' = ps) as -> by congruence.
    apply trace_ebind.
    { constructor; [|constructor]. cbn [emit fst invoked_at].
      split_and!; [apply list_elem_of_here|done..|].
      unfold labels_of. rewrite Hdt, Hfirst. cbn [rbind]. by rewrite Hk. }
    intros _ _. apply trace_ebind; [apply trace_lift|]. intros ? _.
    apply trace_eret.
  - apply trace_ebind; [apply trace_lift|]. intros ts' Hts'%lift_index_ok.
    apply trace_ebind; [apply trace_lift|]. intros ps Hps%lift_index_ok.
    assert (ts' = ts) as -> by congruence.
    apply trace_ebind.
    { constructor; [|constructor]. cbn [emit fst invoked_at].
      split_and!; [apply list_elem_of_here|done..|].
      unfold labels_of. by rewrite Hdt. }
    intros _ _. apply trace_ebind; [apply trace_lift|]. intros ? _.
    apply trace_eret.
Qed.

Lemma invoked_at_keys dt keys keys' vps vts i ev :
  keys ⊆ keys' → invoked_at dt keys vps vts i ev → invoked_at dt keys' vps vts i ev.
Proof. intros Hsub. destruct ev; simpl; [done..|]. intros [Hk H]. auto. Qed.

Lemma trace_compute_group_at dt mtf vps vts i r :
  Forall (invoked_at dt mtf.*1 vps vts i) (compute_group dt mtf vps vts i r).1.
Proof.
  unfold compute_group.
  apply trace_ebind; [apply trace_lift|]. intros ts Hts%lift_index_ok.
  destruct (Nat.eqb_spec (length ts) 0) as [|Hlen]; [apply trace_eret|].
  apply trace_efor_each_elem. intros kf r' Hkf.
  eapply Forall_impl; [apply (trace_call_metric_at _ _ _ _ _ _ ts)|]; [done|..].
  - by destruct ts.
  - intros ev. apply invoked_at_keys.
    intros k ->%list_elem_of_singleton. apply list_elem_of_fmap. eauto.
Qed.

Lemma trace_process_group_at dt by_row lg mtf vps vts i r :
  Forall (invoked_at dt mtf.*1 vps vts i)
    (process_group dt by_row lg mtf vps vts i r).1.
Proof.
  unfold process_group.
  destruct (String.eqb dt "classification"); [|apply trace_compute_group_at].
  apply trace_ebind; [apply trace_lift|]. intros ts _.
  apply trace_ebind.
  { destruct (_ && _); [|apply trace_eret]. apply trace_info. by destruct lg. }
  intros _ _.
  apply trace_ebind; [apply trace_lift|]. intros ps _.
  apply trace_ebind.
  { destruct (_ && _); [|apply trace_eret]. apply trace_info. by destruct lg. }
  intros _ _.
  destruct (_ || _); [apply trace_eret|apply trace_compute_group_at].
Qed.

Lemma valid_lengths preds targets (cells : list cell) :
  Forall (λ c, cell_ok preds targets c = true) cells →
  length (omap (valid_pred preds targets) cells)
    = length (omap (valid_target targets) cells).
Proof.
  induction 1 as [|c cells Hc _ IH]; [done|]. csimpl.
  unfold cell_ok in Hc. unfold valid_pred at 1. unfold valid_target at 1.
  unfold present.
  destruct (target_at targets c) as [[t|]|]; [|done..]. simpl.
  apply bool_decide_eq_true_1 in Hc as [p ->]. simpl. by rewrite IH.
Qed.

Lemma group_lengths preds targets n (by_row : bool) g :
  forallb (cell_ok preds targets) (visited (length preds) n) = true →
  g < (if by_row then length preds else n) →
  length (group_preds preds targets (length preds) n by_row g)
    = length (group_targets targets (length preds) n by_row g).
Proof.
  intros Hok Hg. apply valid_lengths, Forall_forall. intros c Hc.
  rewrite forallb_forall in Hok. apply Hok, list_elem_of_In, elem_of_visited.
  apply elem_of_line in Hc. destruct by_row; destruct Hc as [-> ?]; lia.
Qed.

Section calls.
Variable get_metric_func : string → result metric_func.

Lemma trace__evaluate_predictions preds targets n metrics dt by_row lg :
  Forall (invoked_on_group preds targets n metrics dt)
    (_evaluate_predictions get_metric_func preds targets n metrics dt by_row
       lg).1.
Proof.
  unfold _evaluate_predictions. destruct (Nat.eqb _ _); [apply trace_eret|].
  apply trace_ebind; [apply trace_lift|]. intros mtf Hmtf%lift_ok.
  apply trace_ebind; [apply trace_lift|]. intros valid Hsel%lift_ok.
  destruct (metric_to_func_spec _ _ _ _ Hmtf) as (_ & Hkeys & _).
  rewrite select_valid_values_eq in Hsel.
  destruct (forallb _ _) eqn:Hok; [|done]. injection Hsel as <-.
  apply trace_ebind; [|intros ? _; destruct by_row; apply trace_eret].
  apply trace_efor_each_elem. intros i r Hloop%elem_of_seq.
  eapply Forall_impl; [apply trace_process_group_at|].
  intros [| |key ts ps ls]; cbn [invoked_at invoked_on_group]; [done..|].
  intros (Hkey & Hts & Hps & Hne & Hls).
  apply Hkeys, list_elem_of_fmap in Hkey as (m & -> & Hm).
  assert (Hi : i < (if by_row then length preds else n)).
  { apply lookup_lt_Some in Hts. unfold selected, range in Hts. cbn [snd] in Hts.
    by rewrite length_fmap, length_seq in Hts. }
  destruct (selected_lookup preds targets n by_row i Hi) as [Hps' Hts'].
  exists by_row, i, m.
  assert (ts = group_targets targets (length preds) n by_row i) as -> by congruence.
  assert (ps = group_preds preds targets (length preds) n by_row i) as -> by congruence.
  repeat split; try done; [lia|]. by apply group_lengths.
Qed.

(** X5: whatever the inputs and however the call ends, every call of a
    metric function made by [evaluate_predictions] is made for a requested
    metric, on the valid targets and the valid predictions of one group
    (a task, or an item in the row-axis pass) whose index is below the
    item count; the two lists have the same length, which is not zero,
    and the labels are [None] unless the dataset type is "multiclass". *)
Theorem metric_functions_are_called_on_groups preds targets num_tasks metrics
    dt by_row lg :
  Forall (invoked_on_group preds targets num_tasks metrics dt)
    (evaluate_predictions get_metric_func preds targets num_tasks metrics dt
       by_row lg).1.
Proof.
  unfold evaluate_predictions.
  apply trace_ebind; [apply trace__evaluate_predictions|]. intros ? _.
  destruct by_row; [|apply trace_eret].
  apply trace_ebind; [apply trace__evaluate_predictions|]. intros ? _.
  apply trace_eret.
Qed.

End calls.

(** ** The two passes of evaluate_predictions *)

Lemma no_warning_call_metric dt vps vts i kf r :
  Forall (λ ev, is_warning ev = false) (call_metric dt vps vts i kf r).1.
Proof.
  unfold call_metric. destruct kf as [key func].
  destruct (String.eqb dt "multiclass").
  - repeat (apply trace_ebind; [apply trace_lift|]; intros ? _).
    apply trace_ebind; [by repeat constructor|]. intros _ _.
    apply trace_ebind; [apply trace_lift|]. intros ? _. apply trace_eret.
  - repeat (apply trace_ebind; [apply trace_lift|]; intros ? _).
    apply trace_ebind; [by repeat constructor|]. intros _ _.
    apply trace_ebind; [apply trace_lift|]. intros ? _. apply trace_eret.
Qed.

Lemma no_warning_compute_group dt mtf vps vts i r :
  Forall (λ ev, is_warning ev = false) (compute_group dt mtf vps vts i r).1.
Proof.
  unfold compute_group. apply trace_ebind; [apply trace_lift|]. intros ts _.
  destruct (Nat.eqb _ _); [apply trace_eret|].
  apply trace_efor_each. intros. apply no_warning_call_metric.
Qed.

Lemma no_warning_process_group dt lg mtf vps vts i r :
  Forall (λ ev, is_warning ev = false)
    (process_group dt true lg mtf vps vts i r).1.
Proof.
  unfold process_group. cbn [negb].
  destruct (String.eqb dt "classification"); [|apply no_warning_compute_group].
  apply trace_ebind; [apply trace_lift|]. intros ts _.
  rewrite andb_false_r.
  apply trace_ebind; [apply trace_eret|]. intros _ _.
  apply trace_ebind; [apply trace_lift|]. intros ps _.
  rewrite andb_false_r.
  apply trace_ebind; [apply trace_eret|]. intros _ _.
  destruct (_ || _); [apply trace_eret|apply no_warning_compute_group].
Qed.

Section passes.
Variable get_metric_func : string → result metric_func.

Lemma no_warning_row_axis preds targets n metrics dt lg :
  Forall (λ ev, is_warning ev = false)
    (_evaluate_predictions get_metric_func preds targets n metrics dt true
       lg).1.
Proof.
  unfold _evaluate_predictions. destruct (Nat.eqb _ _); [apply trace_eret|].
  apply trace_ebind; [apply trace_lift|]. intros mtf _.
  apply trace_ebind; [apply trace_lift|]. intros valid _.
  apply trace_ebind; [|intros ? _; apply trace_eret].
  apply trace_efor_each. intros. apply no_warning_process_group.
Qed.

(** X6: the row-axis pass emits no warning: a call with [metric_by_row]
    emits exactly the warnings of the same call without it. *)
Theorem row_axis_adds_no_warning preds targets num_tasks metrics dt lg :
  filter (λ ev, is_warning ev)
    (evaluate_predictions get_metric_func preds targets num_tasks metrics dt
       true lg).1
  = filter (λ ev, is_warning ev)
      (evaluate_predictions get_metric_func preds targets num_tasks metrics
         dt false lg).1.
Proof.
  unfold evaluate_predictions.
  pose proof (no_warning_row_axis preds targets num_tasks metrics dt lg) as Hrow.
  destruct (_evaluate_predictions _ _ _ _ _ _ false _) as [tr1 [r1|e1]];
    [|done].
  destruct (_evaluate_predictions _ _ _ _ _ _ true _) as [tr2 [r2|e2]];
    cbn [ebind eret fst] in *; rewrite !filter_app, ?filter_nil, ?app_nil_r;
    rewrite (filter_none _ tr2), app_nil_r; try done;
    rewrite Forall_forall in Hrow; intros ev Hev Hw; apply Hrow in Hev;
    by rewrite Hev in Hw.
Qed.

(** X7: when a call with [metric_by_row] returns, the call without it
    returns too, its events are the first events of the former, and the
    two results agree on every key that is not a requested name followed
    by "-by-row". *)
Theorem task_entries_survive_row_axis preds targets num_tasks metrics dt lg tr
    res :
  evaluate_predictions get_metric_func preds targets num_tasks metrics dt
    true lg = (tr, Ok res) →
  ∃ tr0 res0,
    evaluate_predictions get_metric_func preds targets num_tasks metrics dt
      false lg = (tr0, Ok res0) ∧
    tr0 `prefix_of` tr ∧
    ∀ k, k ∉ metric_key true <$> metrics → res !! k = res0 !! k.
Proof.
  intros (tr1 & tr2 & by_task & by_row & H1 & H2 & -> & ->)%
    evaluate_predictions_both_axes.
  exists tr1, by_task. rewrite evaluate_predictions_task_axis.
  split; [done|]. split; [by exists tr2|]. intros k Hk.
  destruct (decide (preds = [])) as [->|Hne].
  - rewrite _evaluate_predictions_empty in H1, H2.
    injection H1 as <- <-. injection H2 as <- <-. by rewrite (idemp_L (∪)).
  - destruct (_evaluate_predictions_entries _ _ _ _ _ _ _ _ _ _ Hne H2)
      as [Hout _].
    by rewrite lookup_union_r by by apply Hout.
Qed.

Lemma build_metric_to_func_raises by_row known m rest d e :
  Forall (λ m', ∃ f, get_metric_func m' = Ok f) known →
  get_metric_func m = Raise e →
  build_metric_to_func get_metric_func by_row (known ++ m :: rest) d = Raise e.
Proof.
  intros Hknown Hm. revert d.
  induction Hknown as [|m' known [f Hf] _ IH]; intros d;
    cbn [app build_metric_to_func].
  - by rewrite Hm.
  - rewrite Hf. cbn [rbind]. apply IH.
Qed.

(** X8: on a non-empty grid the metric names are resolved, in order,
    before anything else: when a name is not known and the names before it
    are, the call raises the registry's exception for that name without
    any event, whatever the grids. *)
Theorem unknown_metric_raises_first preds targets num_tasks known m rest dt
    by_row lg e :
  preds ≠ [] →
  Forall (λ m', ∃ f, get_metric_func m' = Ok f) known →
  get_metric_func m = Raise e →
  evaluate_predictions get_metric_func preds targets num_tasks
    (known ++ m :: rest) dt by_row lg = ([], Raise e).
Proof.
  intros Hne Hknown Hm. unfold evaluate_predictions, _evaluate_predictions.
  destruct preds as [|p preds]; [done|]. cbn [length Nat.eqb].
  by rewrite (build_metric_to_func_raises false known m rest [] e Hknown Hm).
Qed.

End passes.

(** ** What the result depends on *)

Lemma forallb_ext_elem {A} (f g : A → bool) (l : list A) :
  (∀ x, x ∈ l → f x = g x) → forallb f l = forallb g l.
Proof.
  induction l as [|a l IH]; intros Hext; [done|]. simpl.
  rewrite (Hext a) by apply list_elem_of_here.
  rewrite IH; [done|]. intros x Hx. by apply Hext, list_elem_of_further.
Qed.

Lemma omap_ext_elem {A B} (f g : A → option B) (l : list A) :
  (∀ x, x ∈ l → f x = g x) → omap f l = omap g l.
Proof.
  induction l as [|a l IH]; intros Hext; [done|]. csimpl.
  rewrite (Hext a) by apply list_elem_of_here.
  rewrite IH; [done|]. intros x Hx. by apply Hext, list_elem_of_further.
Qed.

Lemma line_visited num_items num_tasks (by_row : bool) g (c : cell) :
  g < (if by_row then num_items else num_tasks) →
  c ∈ line num_items num_tasks by_row g →
  c.1 < num_items ∧ c.2 < num_tasks.
Proof.
  intros Hg Hc%elem_of_line. destruct by_row; destruct Hc as [-> ?]; lia.
Qed.

Lemma select_valid_values_ext n preds preds' targets targets' by_row :
  same_visited_cells n preds preds' targets targets' →
  select_valid_values preds targets n by_row
    = select_valid_values preds' targets' n by_row.
Proof.
  intros [Hlen Hcells]. rewrite !select_valid_values_eq, <- Hlen.
  assert (Hpres : ∀ c : cell, c.1 < length preds → c.2 < n →
            present targets' c = present targets c).
  { intros c H1 H2. unfold present. by destruct (Hcells c H1 H2) as [-> _]. }
  rewrite (forallb_ext_elem (cell_ok preds' targets') (cell_ok preds targets)).
  2:{ intros c [H1 H2]%elem_of_visited. unfold cell_ok.
      destruct (Hcells c H1 H2) as [Ht Hp]. rewrite <- Ht.
      unfold present in Hp. destruct (target_at targets c) as [[t|]|]; [|done..].
      by rewrite Hp. }
  destruct (forallb _ _); [|done]. f_equal. unfold selected. rewrite <- Hlen.
  f_equal; apply list_fmap_ext; intros k g [-> Hg]%lookup_seq;
    apply omap_ext_elem; intros c Hc;
    destruct (line_visited _ _ _ _ _ Hg Hc) as [H1 H2];
    destruct (Hcells c H1 H2) as [Ht Hp].
  - unfold valid_pred. rewrite (Hpres c H1 H2).
    destruct (present targets c); [by apply Hp|done].
  - unfold valid_target. by rewrite Ht.
Qed.

Lemma dict_set_same {V} (d : list (string * V)) k v :
  NoDup d.*1 → (k, v) ∈ d → dict_set d k v = d.
Proof.
  induction d as [|[k' v'] d IH]; intros Hnd Hin; [by apply elem_of_nil in Hin|].
  rewrite fmap_cons in Hnd. apply NoDup_cons in Hnd as [Hk' Hnd].
  cbn [dict_set fst] in *. destruct (String.eqb_spec k' k) as [->|Hne].
  - apply elem_of_cons in Hin as [[= ->]|Hin]; [done|].
    exfalso. apply Hk'. apply list_elem_of_fmap. by exists (k, v).
  - apply elem_of_cons in Hin as [[= -> ->]|Hin]; [done|]. by rewrite IH.
Qed.

Lemma elem_of_first_occurrences names x :
  x ∈ first_occurrences names ↔ x ∈ names.
Proof.
  induction names as [|name names IH]; [done|]. cbn [first_occurrences].
  rewrite !elem_of_cons, list_elem_of_filter, IH.
  destruct (decide (x = name)); tauto.
Qed.

Section dependence.
Variable get_metric_func : string → result metric_func.

Lemma build_first_occurrences by_row metrics d :
  NoDup d.*1 →
  (∀ k f, (k, f) ∈ d →
     ∃ m, k = metric_key by_row m ∧ get_metric_func m = Ok f) →
  build_metric_to_func get_metric_func by_row metrics d
  = build_metric_to_func get_metric_func by_row
      (filter (λ m, metric_key by_row m ∉ d.*1) (first_occurrences metrics)) d.
Proof.
  revert d. induction metrics as [|m metrics IH]; intros d Hnd Hd; [done|].
  cbn [first_occurrences]. rewrite filter_cons, list_filter_filter.
  destruct (decide (metric_key by_row m ∉ d.*1)) as [Hnew|Hold].
  - cbn [build_metric_to_func]. destruct (get_metric_func m) as [f|e] eqn:Hf;
      [|done]. cbn [rbind]. rewrite IH.
    + f_equal. apply filter_ext_elem. intros x _.
      rewrite dict_set_keys, decide_False by done.
      rewrite elem_of_app, list_elem_of_singleton. split.
      * intros Hx. split; [tauto|]. intros ->. tauto.
      * intros [Hx Hne] [?|Heq%metric_key_inj]; [done|]. by apply Hne.
    + by apply dict_set_NoDup.
    + intros k f' [[-> ->]|Hin]%elem_of_dict_set; eauto.
  - apply dec_stable in Hold.
    pose proof Hold as Hin. apply list_elem_of_fmap in Hin as ([k f] & Hk & Hin).
    cbn [fst] in Hk. subst k.
    destruct (Hd _ _ Hin) as (m' & Heq & Hf). apply metric_key_inj in Heq as <-.
    cbn [build_metric_to_func]. rewrite Hf. cbn [rbind].
    rewrite dict_set_same by done. rewrite IH by done.
    f_equal. apply filter_ext_elem. intros x _. split; [|tauto].
    intros Hx. split; [done|]. intros ->. by apply Hx.
Qed.

Lemma _evaluate_predictions_first_occurrences preds targets n metrics dt
    by_row lg :
  _evaluate_predictions get_metric_func preds targets n metrics dt by_row lg
  = _evaluate_predictions get_metric_func preds targets n
      (first_occurrences metrics) dt by_row lg.
Proof.
  unfold _evaluate_predictions. destruct (Nat.eqb _ _).
  - f_equal. apply map_eq. intros k. rewrite !nan_results_lookup.
    destruct (decide (k ∈ metrics)) as [Hk|Hk].
    + by rewrite decide_True by by apply elem_of_first_occurrences.
    + by rewrite decide_False by by rewrite elem_of_first_occurrences.
  - rewrite (build_first_occurrences by_row metrics []).
    + rewrite filter_all; [done|]. intros x _. cbn. apply not_elem_of_nil.
    + constructor.
    + intros k f Hin. by apply elem_of_nil in Hin.
Qed.

(** X9: a metric name that is repeated counts once: a call gives the same
    events and the same result as the call with the names reduced to their
    first occurrences. *)
Theorem repeated_metric_names_are_ignored preds targets num_tasks metrics dt
    by_row lg :
  evaluate_predictions get_metric_func preds targets num_tasks metrics dt
    by_row lg
  = evaluate_predictions get_metric_func preds targets num_tasks
      (first_occurrences metrics) dt by_row lg.
Proof.
  unfold evaluate_predictions.
  by rewrite !(_evaluate_predictions_first_occurrences _ _ _ metrics).
Qed.

(** X10: a call depends on the grids only through the item count of the
    predictions, the targets of the cells [(j, i)] with [j < len(preds)]
    and [i < num_tasks], and the predictions of those of these cells whose
    target is present: rows and columns beyond them, and predictions
    under a missing target, change neither the events nor the result. *)
Theorem unread_cells_do_not_matter num_tasks preds preds' targets targets'
    metrics dt by_row lg :
  same_visited_cells num_tasks preds preds' targets targets' →
  evaluate_predictions get_metric_func preds targets num_tasks metrics dt
    by_row lg
  = evaluate_predictions get_metric_func preds' targets' num_tasks metrics dt
      by_row lg.
Proof.
  intros Hsame.
  assert (H : ∀ b,
    _evaluate_predictions get_metric_func preds targets num_tasks metrics dt b
      lg
    = _evaluate_predictions get_metric_func preds' targets' num_tasks metrics
        dt b lg).
  { intros b. unfold _evaluate_predictions.
    rewrite (select_valid_values_ext _ _ _ _ _ b Hsame).
    destruct Hsame as [-> _]. done. }
  unfold evaluate_predictions. by rewrite !H.
Qed.

End dependence.

(** ** Multiclass data *)

Lemma elem_of_group_preds preds targets num_items num_tasks by_row g v :
  v ∈ group_preds preds targets num_items num_tasks by_row g →
  ∃ row, row ∈ preds ∧ v ∈ row.
Proof.
  unfold group_preds. intros (c & Hc & Hv)%list_elem_of_omap.
  unfold valid_pred in Hv. destruct (present targets c); [|done].
  unfold pred_at in Hv. destruct (preds !! c.1) as [row|] eqn:Hrow; [|done].
  exists row. split; [by eapply list_elem_of_lookup_2|].
  by eapply list_elem_of_lookup_2.
Qed.

Lemma call_metric_scores vps vts i kf r ts ps :
  vts !! i = Some ts → vps !! i = Some ps → ps ≠ [] →
  Forall (λ p, ∃ scores, p = Scores scores) ps →
  never_raises kf.2 →
  succeeds (call_metric "multiclass" vps vts i kf r).
Proof.
  intros Hts Hps Hne Hall Hf. unfold call_metric. destruct kf as [k f].
  cbn [String.eqb Ascii.eqb Bool.eqb].
  rewrite (index_Some _ _ _ Hts), (index_Some _ _ _ Hps).
  destruct Hall as [|p ps [scores ->] _]; [done|].
  destruct (Hf ts (Scores scores :: ps) (Some (range (length scores))))
    as [x Hx].
  cbn [snd] in Hx. cbn. rewrite Hx. by eexists _, _.
Qed.

Lemma call_metric_numbers vps vts i kf r ts ps :
  vts !! i = Some ts → vps !! i = Some ps → ps ≠ [] →
  Forall (λ p, ∃ x, p = Num x) ps →
  call_metric "multiclass" vps vts i kf r = ([], Raise TypeError).
Proof.
  intros Hts Hps Hne Hall. unfold call_metric. destruct kf as [k f].
  cbn [String.eqb Ascii.eqb Bool.eqb].
  rewrite (index_Some _ _ _ Hts), (index_Some _ _ _ Hps).
  by destruct Hall as [|p ps [x ->] _].
Qed.

Lemma process_group_scores by_row lg mtf vps vts i r ts ps :
  vts !! i = Some ts → vps !! i = Some ps → length ps = length ts →
  Forall (λ p, ∃ scores, p = Scores scores) ps →
  Forall (λ kf : string * metric_func, never_raises kf.2) mtf →
  succeeds (process_group "multiclass" by_row lg mtf vps vts i r).
Proof.
  intros Hts Hps Hlen Hall Hmtf. unfold process_group, compute_group.
  cbn [String.eqb Ascii.eqb Bool.eqb]. rewrite (index_Some _ _ _ Hts).
  cbn [lift ebind]. destruct (Nat.eqb_spec (length ts) 0) as [|Hne];
    [by eexists _, _|].
  destruct (efor_each mtf (call_metric "multiclass" vps vts i) r)
    as [tr res] eqn:Hrun.
  enough (succeeds (efor_each mtf (call_metric "multiclass" vps vts i) r))
    as (tr' & a & Heq).
  { rewrite Hrun in Heq. injection Heq as -> ->. by eexists _, _. }
  apply succeeds_efor_each. intros kf r' Hkf.
  apply (call_metric_scores _ _ _ _ _ ts ps); try done.
  - destruct ps; [simpl in Hlen; lia|done].
  - rewrite Forall_forall in Hmtf. by apply Hmtf.
Qed.

Lemma process_group_numbers by_row lg mtf vps vts i r ts ps :
  vts !! i = Some ts → vps !! i = Some ps → length ps = length ts →
  Forall (λ p, ∃ x, p = Num x) ps →
  mtf ≠ [] →
  process_group "multiclass" by_row lg mtf vps vts i r =
    if Nat.eqb (length ts) 0 then ([], Ok r) else ([], Raise TypeError).
Proof.
  intros Hts Hps Hlen Hall Hmtf. unfold process_group, compute_group.
  cbn [String.eqb Ascii.eqb Bool.eqb]. rewrite (index_Some _ _ _ Hts).
  cbn [lift ebind]. destruct (Nat.eqb_spec (length ts) 0) as [|Hne]; [done|].
  destruct mtf as [|kf mtf]; [done|]. cbn [efor_each].
  rewrite (call_metric_numbers _ _ _ _ _ ts ps); try done.
  destruct ps; [simpl in Hlen; lia|done].
Qed.

Section multiclass.
Variable get_metric_func : string → result metric_func.

Lemma build_metric_to_func_resolves by_row metrics d :
  Forall (λ m, ∃ f, get_metric_func m = Ok f) metrics →
  ∃ mtf, build_metric_to_func get_metric_func by_row metrics d = Ok mtf.
Proof.
  intros Hall. revert d. induction Hall as [|m metrics [f Hf] _ IH]; intros d;
    cbn [build_metric_to_func]; [eauto|].
  rewrite Hf. cbn [rbind]. apply IH.
Qed.

Lemma groups_of_well_shaped preds targets n (by_row : bool) i :
  well_shaped preds targets n →
  i < (if by_row then length preds else n) →
  let groups := selected preds targets n by_row in
  groups.2 !! i = Some (group_targets targets (length preds) n by_row i) ∧
  groups.1 !! i = Some (group_preds preds targets (length preds) n by_row i) ∧
  length (group_preds preds targets (length preds) n by_row i)
    = length (group_targets targets (length preds) n by_row i).
Proof.
  intros Hws Hi groups.
  destruct (selected_lookup preds targets n by_row i Hi) as [Hps Hts].
  split; [done|]. split; [done|].
  apply group_lengths; [by apply well_shaped_visited|done].
Qed.

Lemma _evaluate_predictions_scores preds targets n metrics (by_row : bool) lg :
  well_shaped preds targets n →
  length preds ≤ (if by_row then length preds else n) →
  known_total get_metric_func metrics →
  all_scores preds →
  succeeds
    (_evaluate_predictions get_metric_func preds targets n metrics
       "multiclass" by_row lg).
Proof.
  intros Hws Hlen Hknown Hscores. unfold _evaluate_predictions.
  destruct (Nat.eqb _ _); [apply succeeds_eret|].
  destruct (build_metric_to_func_total get_metric_func by_row metrics []
              Hknown) as (mtf & -> & Hall); [constructor|].
  apply succeeds_ebind; [by eexists _, _|]. intros ? [= <-].
  rewrite select_valid_values_eq, well_shaped_visited by done.
  apply succeeds_ebind; [by eexists _, _|]. intros ? [= <-].
  apply succeeds_ebind; [|intros ? _; destruct by_row; apply succeeds_eret].
  apply succeeds_efor_each. intros i r Hi%elem_of_seq.
  destruct (groups_of_well_shaped preds targets n by_row i Hws)
    as (Hts & Hps & Hlens); [lia|].
  eapply process_group_scores; try done.
  apply Forall_forall. intros v (row & Hrow & Hv)%elem_of_group_preds.
  unfold all_scores in Hscores. rewrite Forall_forall in Hscores.
  specialize (Hscores row Hrow). rewrite Forall_forall in Hscores. auto.
Qed.

(** X11: on multiclass data whose predictions are lists of class scores,
    a call on well-shaped grids with at most [num_tasks] items and known
    metrics that do not raise returns. *)
Theorem multiclass_scores_are_evaluated preds targets num_tasks metrics by_row
    lg :
  well_shaped preds targets num_tasks →
  length preds ≤ num_tasks →
  known_total get_metric_func metrics →
  all_scores preds →
  succeeds
    (evaluate_predictions get_metric_func preds targets num_tasks metrics
       "multiclass" by_row lg).
Proof.
  intros Hws Hlen Hknown Hscores. unfold evaluate_predictions.
  apply succeeds_ebind; [by apply _evaluate_predictions_scores|].
  intros by_task _. destruct by_row; [|apply succeeds_eret].
  apply succeeds_ebind; [by apply _evaluate_predictions_scores|].
  intros ? _. apply succeeds_eret.
Qed.

Lemma metric_loop_numbers by_row lg mtf vps vts a k r :
  mtf ≠ [] →
  (∀ i, a ≤ i < a + k → ∃ ts ps,
     vts !! i = Some ts ∧ vps !! i = Some ps ∧ length ps = length ts ∧
     Forall (λ p, ∃ x, p = Num x) ps) →
  efor_each (seq a k) (process_group "multiclass" by_row lg mtf vps vts) r =
    if forallb (λ i, negb (contributes_at "multiclass" vts i)) (seq a k)
    then ([], Ok r) else ([], Raise TypeError).
Proof.
  intros Hmtf. revert a. induction k as [|k IH]; intros a Hall; [done|].
  cbn [seq efor_each forallb].
  destruct (Hall a) as (ts & ps & Hts & Hps & Hlen & Hnum); [lia|].
  rewrite (process_group_numbers _ _ _ _ _ _ _ ts ps) by done.
  unfold contributes_at at 1. rewrite Hts. destruct ts as [|t ts].
  - cbn. rewrite IH; [by destruct (forallb _ _)|].
    intros i Hi. apply Hall. lia.
  - done.
Qed.

(** X12: on multiclass data whose predictions are plain numbers, a call
    on well-shaped grids with at most [num_tasks] items, at least one
    metric, all of them known, and a present target in one of the tasks
    that the loop visits raises [TypeError] (the [len] of line 102) before
    any metric function is called. *)
Theorem multiclass_numbers_raise preds targets num_tasks metrics by_row lg
    (c : cell) :
  well_shaped preds targets num_tasks →
  length preds ≤ num_tasks →
  metrics ≠ [] →
  Forall (λ m, ∃ f, get_metric_func m = Ok f) metrics →
  all_numbers preds →
  c.1 < length preds → c.2 < length preds → present targets c = true →
  evaluate_predictions get_metric_func preds targets num_tasks metrics
    "multiclass" by_row lg = ([], Raise TypeError).
Proof.
  intros Hws Hlen Hne Hknown Hnum H1 H2 Hc.
  unfold evaluate_predictions, _evaluate_predictions.
  destruct (Nat.eqb_spec (length preds) 0) as [|_]; [lia|].
  destruct (build_metric_to_func_resolves false metrics [] Hknown)
    as [mtf Hmtf]. rewrite Hmtf.
  rewrite select_valid_values_eq, well_shaped_visited by done.
  cbn [lift ebind app]. unfold metric_loop, range.
  assert (Hmtf' : mtf ≠ []).
  { destruct (metric_to_func_spec _ _ _ _ Hmtf) as (_ & Hkeys & _).
    destruct metrics as [|m metrics]; [done|]. intros ->.
    assert (H : metric_key false m ∈ ([] : list (string * metric_func)).*1).
    { apply Hkeys. rewrite fmap_cons. apply list_elem_of_here. }
    by apply elem_of_nil in H. }
  rewrite metric_loop_numbers.
  - assert (Hsome : forallb (λ i, negb (contributes_at "multiclass"
              (selected preds targets num_tasks false).2 i))
              (seq 0 (length preds)) = false).
    { apply forallb_false_elem. exists c.2. split; [apply elem_of_seq; lia|].
      destruct (groups_of_well_shaped preds targets num_tasks false c.2 Hws)
        as (Hts & _); [simpl; lia|].
      unfold contributes_at. rewrite Hts.
      assert (Hin : c ∈ group_cells targets (length preds) num_tasks false c.2).
      { apply list_elem_of_filter. split; [by rewrite Hc|].
        apply elem_of_line. simpl. lia. }
      pose proof (group_targets_length targets (length preds) num_tasks false
                    c.2) as Hl.
      destruct (group_cells _ _ _ _ _); [by apply elem_of_nil in Hin|].
      by destruct (group_targets _ _ _ _ _). }
    by rewrite Hsome.
  - done.
  - intros i Hi.
    destruct (groups_of_well_shaped preds targets num_tasks false i Hws)
      as (Hts & Hps & Hlens); [simpl; lia|].
    eexists _, _. split; [done|]. split; [done|]. split; [done|].
    apply Forall_forall. intros v (row & Hrow & Hv)%elem_of_group_preds.
    unfold all_numbers in Hnum. rewrite Forall_forall in Hnum.
    specialize (Hnum row Hrow). rewrite Forall_forall in Hnum. auto.
Qed.

End multiclass.

(** ** Two data sets put together *)

Lemma omap_fmap {A B C} (f : B → option C) (g : A → B) (l : list A) :
  omap f (g <$> l) = omap (λ x, f (g x)) l.
Proof. induction l as [|a l IH]; [done|]. csimpl. by rewrite IH. Qed.

Lemma zip_with_fmap_same {A B C D} (h : B → C → D) (f : A → B) (g : A → C)
    (l : list A) :
  zip_with h (f <$> l) (g <$> l) = (λ x, h (f x) (g x)) <$> l.
Proof. induction l as [|a l IH]; [done|]. csimpl. by rewrite IH. Qed.

Section concatenation.
Variable preds1 preds2 : grid value.
Variable targets1 targets2 : grid (option float).
Hypothesis same_items : length preds1 = length targets1.

Lemma target_at_app_l (c : cell) :
  c.1 < length preds1 →
  target_at (targets1 ++ targets2) c = target_at targets1 c.
Proof. intros Hc. unfold target_at. by rewrite lookup_app_l by lia. Qed.

Lemma pred_at_app_l (c : cell) :
  c.1 < length preds1 → pred_at (preds1 ++ preds2) c = pred_at preds1 c.
Proof. intros Hc. unfold pred_at. by rewrite lookup_app_l by lia. Qed.

Lemma target_at_app_r j i :
  target_at (targets1 ++ targets2) (length preds1 + j, i)
    = target_at targets2 (j, i).
Proof.
  unfold target_at. cbn [fst snd]. rewrite lookup_app_r by lia.
  by replace (length preds1 + j - length targets1) with j by lia.
Qed.

Lemma pred_at_app_r j i :
  pred_at (preds1 ++ preds2) (length preds1 + j, i) = pred_at preds2 (j, i).
Proof.
  unfold pred_at. cbn [fst snd]. rewrite lookup_app_r by lia.
  by replace (length preds1 + j - length preds1) with j by lia.
Qed.

Lemma cell_ok_app_l (c : cell) :
  c.1 < length preds1 →
  cell_ok (preds1 ++ preds2) (targets1 ++ targets2) c
    = cell_ok preds1 targets1 c.
Proof.
  intros Hc. unfold cell_ok. by rewrite target_at_app_l, pred_at_app_l.
Qed.

Lemma cell_ok_app_r j i :
  cell_ok (preds1 ++ preds2) (targets1 ++ targets2) (length preds1 + j, i)
    = cell_ok preds2 targets2 (j, i).
Proof. unfold cell_ok. by rewrite target_at_app_r, pred_at_app_r. Qed.

Lemma valid_target_app_l (c : cell) :
  c.1 < length preds1 →
  valid_target (targets1 ++ targets2) c = valid_target targets1 c.
Proof. intros Hc. unfold valid_target. by rewrite target_at_app_l. Qed.

Lemma valid_target_app_r j i :
  valid_target (targets1 ++ targets2) (length preds1 + j, i)
    = valid_target targets2 (j, i).
Proof. unfold valid_target. by rewrite target_at_app_r. Qed.

Lemma valid_pred_app_l (c : cell) :
  c.1 < length preds1 →
  valid_pred (preds1 ++ preds2) (targets1 ++ targets2) c
    = valid_pred preds1 targets1 c.
Proof.
  intros Hc. unfold valid_pred, present.
  by rewrite target_at_app_l, pred_at_app_l.
Qed.

Lemma valid_pred_app_r j i :
  valid_pred (preds1 ++ preds2) (targets1 ++ targets2) (length preds1 + j, i)
    = valid_pred preds2 targets2 (j, i).
Proof. unfold valid_pred, present. by rewrite target_at_app_r, pred_at_app_r. Qed.

Lemma cells_ok_app n :
  forallb (cell_ok (preds1 ++ preds2) (targets1 ++ targets2))
    (visited (length (preds1 ++ preds2)) n)
  = forallb (cell_ok preds1 targets1) (visited (length preds1) n)
    && forallb (cell_ok preds2 targets2) (visited (length preds2) n).
Proof.
  apply eq_true_iff_eq. rewrite andb_true_iff, !forallb_forall. split.
  - intros Hall. split.
    + intros c Hc%list_elem_of_In. apply elem_of_visited in Hc as [H1 H2].
      rewrite <- cell_ok_app_l by done. apply Hall, list_elem_of_In.
      apply elem_of_visited. rewrite length_app. lia.
    + intros [j i] Hc%list_elem_of_In. apply elem_of_visited in Hc as [H1 H2].
      rewrite <- cell_ok_app_r. apply Hall, list_elem_of_In.
      apply elem_of_visited. rewrite length_app. simpl in *. lia.
  - intros [Hl Hr] [j i] Hc%list_elem_of_In.
    apply elem_of_visited in Hc as [H1 H2]. rewrite length_app in H1.
    simpl in H1, H2. destruct (decide (j < length preds1)) as [Hj|Hj].
    + rewrite cell_ok_app_l by done. apply Hl, list_elem_of_In.
      by apply elem_of_visited.
    + replace j with (length preds1 + (j - length preds1)) by lia.
      rewrite cell_ok_app_r. apply Hr, list_elem_of_In.
      apply elem_of_visited. simpl. lia.
Qed.

Lemma omap_column {A} (val val1 val2 : cell → option A) g k :
  (∀ j, j < length preds1 → val (j, g) = val1 (j, g)) →
  (∀ j, val (length preds1 + j, g) = val2 (j, g)) →
  omap val ((λ j, (j, g)) <$> seq 0 (length preds1 + k))
  = omap val1 ((λ j, (j, g)) <$> seq 0 (length preds1))
    ++ omap val2 ((λ j, (j, g)) <$> seq 0 k).
Proof.
  intros Hl Hr. rewrite seq_app, fmap_app, omap_app. f_equal.
  - apply omap_ext_elem. intros c (j & -> & Hj%elem_of_seq)%list_elem_of_fmap.
    apply Hl. lia.
  - cbn [Nat.add].
    replace (seq (length preds1) k) with (Nat.add (length preds1) <$> seq 0 k)
      by (rewrite fmap_add_seq; f_equal; lia).
    rewrite !omap_fmap. apply omap_ext_elem. intros j _. apply Hr.
Qed.

Lemma omap_row {A} (val val' : cell → option A) g g' n :
  (∀ i, val (g, i) = val' (g', i)) →
  omap val ((λ i, (g, i)) <$> range n) = omap val' ((λ i, (g', i)) <$> range n).
Proof.
  intros Hval. rewrite !omap_fmap. apply omap_ext_elem. intros i _. apply Hval.
Qed.

Lemma selected_app n by_row :
  selected (preds1 ++ preds2) (targets1 ++ targets2) n by_row
  = combine by_row (selected preds1 targets1 n by_row)
      (selected preds2 targets2 n by_row).
Proof.
  unfold selected, combine. rewrite length_app. destruct by_row; cbn [fst snd].
  - unfold range. rewrite seq_app, !fmap_app. cbn [Nat.add].
    replace (seq (length preds1) (length preds2))
      with (Nat.add (length preds1) <$> seq 0 (length preds2))
      by (rewrite fmap_add_seq; f_equal; lia).
    rewrite <- !list_fmap_compose.
    f_equal; f_equal; apply list_fmap_ext; intros k g Hg;
      unfold group_preds, group_targets, line; cbn [compose];
      try (apply lookup_seq in Hg as [-> Hg]; cbn [Nat.add]);
      apply omap_row; intros i;
      auto using valid_pred_app_l, valid_pred_app_r, valid_target_app_l,
        valid_target_app_r.
  - rewrite !zip_with_fmap_same.
    f_equal; apply list_fmap_ext; intros k g _;
      unfold group_preds, group_targets, line, range; apply omap_column;
      intros j; auto using valid_pred_app_l, valid_pred_app_r,
        valid_target_app_l, valid_target_app_r.
Qed.

(** X13: selecting on two data sets put one after the other (the first
    with as many rows of targets as of predictions) is selecting on each
    and combining the groups: group by group in task-axis mode, one list
    of groups after the other in row-axis mode; it fails when either
    selection fails. *)
Theorem select_valid_values_app num_tasks by_row :
  select_valid_values (preds1 ++ preds2) (targets1 ++ targets2) num_tasks
    by_row
  = (first <- select_valid_values preds1 targets1 num_tasks by_row;;
     second <- select_valid_values preds2 targets2 num_tasks by_row;;
     Ok (combine by_row first second)).
Proof.
  rewrite !select_valid_values_eq, cells_ok_app, selected_app.
  by destruct (forallb _ _), (forallb _ _).
Qed.

End concatenation.

(** ** The order of the metric names *)

Lemma same_value_refl {A} (m : M A) : same_value m m.
Proof. by intros a. Qed.

Lemma same_value_sym {A} (m1 m2 : M A) : same_value m1 m2 → same_value m2 m1.
Proof. intros H a. by rewrite (H a). Qed.

Lemma same_value_trans {A} (m1 m2 m3 : M A) :
  same_value m1 m2 → same_value m2 m3 → same_value m1 m3.
Proof. intros H1 H2 a. by rewrite (H1 a), (H2 a). Qed.

Lemma ebind_returns {A B} (m : M A) (k : A → M B) tr1 a tr2 b :
  m = (tr1, Ok a) → k a = (tr2, Ok b) → ebind m k = (tr1 ++ tr2, Ok b).
Proof. intros -> Hk. unfold ebind. by rewrite Hk. Qed.

Lemma same_value_ebind {A B} (m1 m2 : M A) (k1 k2 : A → M B) :
  same_value m1 m2 → (∀ a, same_value (k1 a) (k2 a)) →
  same_value (ebind m1 k1) (ebind m2 k2).
Proof.
  intros Hm Hk b. split.
  - intros [tr (tr1 & a & tr2 & H1 & H2 & ->)%ebind_ok].
    destruct (proj1 (Hm a) (ex_intro _ tr1 H1)) as [tr1' H1'].
    destruct (proj1 (Hk a b) (ex_intro _ tr2 H2)) as [tr2' H2'].
    exists (tr1' ++ tr2'). by apply (ebind_returns _ _ _ a).
  - intros [tr (tr1 & a & tr2 & H1 & H2 & ->)%ebind_ok].
    destruct (proj2 (Hm a) (ex_intro _ tr1 H1)) as [tr1' H1'].
    destruct (proj2 (Hk a b) (ex_intro _ tr2 H2)) as [tr2' H2'].
    exists (tr1' ++ tr2'). by apply (ebind_returns _ _ _ a).
Qed.

Lemma same_value_efor_each {A S} (xs : list A) (b1 b2 : A → S → M S) s :
  (∀ x s, same_value (b1 x s) (b2 x s)) →
  same_value (efor_each xs b1 s) (efor_each xs b2 s).
Proof.
  intros Hb. revert s. induction xs as [|x xs IH]; intros s; simpl.
  - apply same_value_refl.
  - apply same_value_ebind; auto.
Qed.

Lemma ebind_ext {A B} (m : M A) (k1 k2 : A → M B) :
  (∀ a, k1 a = k2 a) → ebind m k1 = ebind m k2.
Proof. intros Hk. destruct m as [tr [a|e]]; simpl; [|done]. by rewrite Hk. Qed.

Lemma append_result_comm r k1 x1 k2 x2 :
  k1 ≠ k2 →
  append_result (append_result r k1 x1) k2 x2
    = append_result (append_result r k2 x2) k1 x1.
Proof.
  intros Hne. unfold append_result.
  rewrite !lookup_insert_ne by done. by apply insert_insert_ne.
Qed.

(** What a call of a metric does to [results] is to append the value it
    computed, which does not depend on [results]. *)
Lemma call_metric_shape dt vps vts i k f :
  ∃ m : M float, ∀ r,
    call_metric dt vps vts i (k, f) r
      = ebind m (λ x, eret (append_result r k x)).
Proof.
  unfold call_metric. destruct (String.eqb dt "multiclass").
  - destruct (index vts i) as [ts|e]; [|by exists ([], Raise e)].
    destruct (index vps i) as [ps|e]; [|by exists ([], Raise e)].
    cbn [lift ebind app].
    destruct (index ps 0) as [first|e]; [|by exists ([], Raise e)].
    destruct (value_len first) as [n|e]; [|by exists ([], Raise e)].
    exists ([Invoked k ts ps (Some (range n))], f ts ps (Some (range n))).
    intros r. cbn. by destruct (f ts ps (Some (range n))).
  - destruct (index vts i) as [ts|e]; [|by exists ([], Raise e)].
    destruct (index vps i) as [ps|e]; [|by exists ([], Raise e)].
    exists ([Invoked k ts ps None], f ts ps None).
    intros r. cbn. by destruct (f ts ps None).
Qed.

Lemma call_metric_swap dt vps vts i kf1 kf2 r
    (K : gmap string (list float) → M (gmap string (list float))) :
  kf1.1 ≠ kf2.1 →
  same_value
    (ebind (call_metric dt vps vts i kf1 r)
       (λ r1, ebind (call_metric dt vps vts i kf2 r1) K))
    (ebind (call_metric dt vps vts i kf2 r)
       (λ r1, ebind (call_metric dt vps vts i kf1 r1) K)).
Proof.
  destruct kf1 as [k1 f1], kf2 as [k2 f2]. cbn [fst]. intros Hne.
  destruct (call_metric_shape dt vps vts i k1 f1) as [m1 H1].
  destruct (call_metric_shape dt vps vts i k2 f2) as [m2 H2].
  rewrite (H1 r), (H2 r).
  rewrite (ebind_ext _ (λ r1, ebind (call_metric dt vps vts i (k2, f2) r1) K)
             (λ r1, ebind (ebind m2 (λ x, eret (append_result r1 k2 x))) K))
    by (intros; by rewrite H2).
  rewrite (ebind_ext _ (λ r1, ebind (call_metric dt vps vts i (k1, f1) r1) K)
             (λ r1, ebind (ebind m1 (λ x, eret (append_result r1 k1 x))) K))
    by (intros; by rewrite H1).
  destruct m1 as [tr1 [x1|e1]], m2 as [tr2 [x2|e2]]; cbn [ebind eret app];
    [|by intros a; split; intros [tr [=]]..].
  rewrite (append_result_comm r k1 x1 k2 x2) by done.
  destruct (K _) as [trK [a|e]]; intros b; split; intros [tr [= <- <-]]; eauto.
Qed.

Lemma call_metrics_perm dt vps vts i mtf mtf' :
  mtf ≡ₚ mtf' → NoDup mtf.*1 →
  ∀ r, same_value (efor_each mtf (call_metric dt vps vts i) r)
         (efor_each mtf' (call_metric dt vps vts i) r).
Proof.
  induction 1 as [|kf l l' Hperm IH|kf1 kf2 l|l l' l'' H1 IH1 H2 IH2];
    intros Hnd r.
  - apply same_value_refl.
  - rewrite fmap_cons in Hnd. apply NoDup_cons in Hnd as [_ Hnd].
    cbn [efor_each]. apply same_value_ebind; [apply same_value_refl|].
    intros r1. by apply IH.
  - rewrite !fmap_cons in Hnd. apply NoDup_cons in Hnd as [Hne _].
    cbn [efor_each]. apply call_metric_swap. intros Heq. apply Hne.
    rewrite Heq. apply list_elem_of_here.
  - eapply same_value_trans; [by apply IH1|]. apply IH2.
    by rewrite <- H1.
Qed.

Lemma append_nans_perm (mtf mtf' : list (string * metric_func)) r :
  mtf ≡ₚ mtf' → NoDup mtf.*1 → append_nans mtf r = append_nans mtf' r.
Proof.
  intros Hperm Hnd. apply map_eq. intros k.
  rewrite !append_nans_lookup by (done || by rewrite <- Hperm).
  destruct (decide (k ∈ mtf.*1)) as [Hk|Hk].
  - by rewrite decide_True by by rewrite <- Hperm.
  - by rewrite decide_False by by rewrite <- Hperm.
Qed.

Lemma process_group_perm dt by_row lg mtf mtf' vps vts i r :
  mtf ≡ₚ mtf' → NoDup mtf.*1 →
  same_value (process_group dt by_row lg mtf vps vts i r)
    (process_group dt by_row lg mtf' vps vts i r).
Proof.
  intros Hperm Hnd.
  assert (Hcompute : same_value (compute_group dt mtf vps vts i r)
                       (compute_group dt mtf' vps vts i r)).
  { unfold compute_group. apply same_value_ebind; [apply same_value_refl|].
    intros ts. destruct (Nat.eqb _ _); [apply same_value_refl|].
    by apply call_metrics_perm. }
  unfold process_group. destruct (String.eqb dt "classification"); [|done].
  repeat (apply same_value_ebind; [apply same_value_refl|]; intros ?).
  destruct (_ || _); [|done].
  rewrite (append_nans_perm mtf mtf') by done. apply same_value_refl.
Qed.

Section order.
Variable get_metric_func : string → result metric_func.

Lemma metric_to_func_elems by_row metrics mtf :
  build_metric_to_func get_metric_func by_row metrics [] = Ok mtf →
  ∀ k f, (k, f) ∈ mtf ↔
    ∃ m, m ∈ metrics ∧ k = metric_key by_row m ∧ get_metric_func m = Ok f.
Proof.
  intros Hmtf.
  destruct (metric_to_func_spec _ _ _ _ Hmtf) as (Hnd & Hkeys & Hfun).
  apply build_metric_to_func_ok in Hmtf as (_ & Hval & _); [|constructor|].
  2:{ intros k f Hin. by apply elem_of_nil in Hin. }
  intros k f. split.
  - intros Hin. destruct (Hval _ _ Hin) as (m & -> & Hf).
    exists m. split; [|done].
    assert (Hk : metric_key by_row m ∈ mtf.*1).
    { apply list_elem_of_fmap. by exists (metric_key by_row m, f). }
    apply Hkeys, list_elem_of_fmap in Hk as (m0 & Heq & Hm0).
    by apply metric_key_inj in Heq as ->.
  - intros (m & Hm & -> & Hf). destruct (Hfun m Hm) as (f0 & Hf0 & Hin).
    by assert (f0 = f) as <- by congruence.
Qed.

Lemma build_same_names by_row metrics metrics' mtf :
  (∀ m, m ∈ metrics ↔ m ∈ metrics') →
  build_metric_to_func get_metric_func by_row metrics [] = Ok mtf →
  ∃ mtf', build_metric_to_func get_metric_func by_row metrics' [] = Ok mtf' ∧
          mtf ≡ₚ mtf' ∧ NoDup mtf.*1.
Proof.
  intros Hsame Hmtf.
  destruct (metric_to_func_spec _ _ _ _ Hmtf) as (Hnd & Hkeys & Hfun).
  destruct (build_metric_to_func_resolves get_metric_func by_row metrics' [])
    as [mtf' Hmtf'].
  { apply Forall_forall. intros m Hm%Hsame.
    destruct (Hfun m Hm) as (f & Hf & _). eauto. }
  destruct (metric_to_func_spec _ _ _ _ Hmtf') as (Hnd' & _ & _).
  exists mtf'. split; [done|]. split; [|done].
  apply NoDup_Permutation; [by eapply NoDup_fmap_1..|].
  intros [k f].
  rewrite (metric_to_func_elems _ _ _ Hmtf), (metric_to_func_elems _ _ _ Hmtf').
  split; intros (m & Hm & Hk & Hf); exists m; by rewrite ?Hsame in *.
Qed.

Lemma _evaluate_predictions_same_names preds targets n metrics metrics' dt
    by_row lg tr res :
  (∀ m, m ∈ metrics ↔ m ∈ metrics') →
  _evaluate_predictions get_metric_func preds targets n metrics dt by_row lg
    = (tr, Ok res) →
  ∃ tr', _evaluate_predictions get_metric_func preds targets n metrics' dt
           by_row lg = (tr', Ok res).
Proof.
  intros Hsame. unfold _evaluate_predictions. destruct (Nat.eqb _ _).
  - intros [= <- <-]. exists []. unfold eret. do 2 f_equal.
    apply map_eq. intros k. rewrite !nan_results_lookup.
    destruct (decide (k ∈ metrics)) as [Hk|Hk].
    + by rewrite decide_True by by apply Hsame.
    + by rewrite decide_False by by rewrite <- Hsame.
  - intros (mtf & Hmtf & Hrun)%ebind_lift_ok.
    apply ebind_lift_ok in Hrun as (valid & Hsel & Hrun).
    apply ebind_ok in Hrun as (tr1 & loop_res & tr2 & Hloop & Hfin & ->).
    destruct (build_same_names _ _ _ _ Hsame Hmtf) as (mtf' & -> & Hperm & Hnd).
    rewrite Hsel. cbn [lift ebind app].
    assert (Hloops : same_value
              (metric_loop dt by_row lg mtf valid.1 valid.2 (length preds))
              (metric_loop dt by_row lg mtf' valid.1 valid.2 (length preds))).
    { apply same_value_efor_each. intros i r. by apply process_group_perm. }
    destruct (proj1 (Hloops loop_res) (ex_intro _ tr1 Hloop)) as [tr1' ->].
    cbn [ebind]. rewrite Hfin. eauto.
Qed.

(** X14: the result does not depend on the order or on the repetitions
    of the metric names: when a call returns, the call with any list of
    the same names returns the same mapping. *)
Theorem metric_order_does_not_matter preds targets num_tasks metrics metrics'
    dt by_row lg tr res :
  (∀ m, m ∈ metrics ↔ m ∈ metrics') →
  evaluate_predictions get_metric_func preds targets num_tasks metrics dt
    by_row lg = (tr, Ok res) →
  ∃ tr', evaluate_predictions get_metric_func preds targets num_tasks
           metrics' dt by_row lg = (tr', Ok res).
Proof.
  intros Hsame. unfold evaluate_predictions.
  intros (tr1 & by_task & tr2 & H1 & H2 & ->)%ebind_ok.
  destruct (_evaluate_predictions_same_names _ _ _ _ _ _ _ _ _ _ Hsame H1)
    as [tr1' ->].
  cbn [ebind]. destruct by_row.
  - apply ebind_ok in H2 as (tr3 & rows & tr4 & H3 & H4 & ->).
    destruct (_evaluate_predictions_same_names _ _ _ _ _ _ _ _ _ _ Hsame H3)
      as [tr3' ->].
    cbn [ebind]. rewrite H4. eauto.
  - rewrite H2. eauto.
Qed.

End order.

(** ** Warnings, and the row-axis pass on its own *)

Section warnings_and_rows.
Variable get_metric_func : string → result metric_func.

(** X15: only classification data give warnings: with any other dataset
    type a call emits no warning. *)
Theorem only_classification_warns preds targets num_tasks metrics dt by_row
    lg :
  String.eqb dt "classification" = false →
  Forall (λ ev, is_warning ev = false)
    (evaluate_predictions get_metric_func preds targets num_tasks metrics dt
       by_row lg).1.
Proof.
  intros Hdt.
  assert (H : ∀ b, Forall (λ ev, is_warning ev = false)
    (_evaluate_predictions get_metric_func preds targets num_tasks metrics dt
       b lg).1).
  { intros b. unfold _evaluate_predictions.
    destruct (Nat.eqb _ _); [apply trace_eret|].
    apply trace_ebind; [apply trace_lift|]. intros mtf _.
    apply trace_ebind; [apply trace_lift|]. intros valid _.
    apply trace_ebind; [|intros ? _; destruct b; apply trace_eret].
    apply trace_efor_each. intros i r. unfold process_group. rewrite Hdt.
    apply no_warning_compute_group. }
  unfold evaluate_predictions. apply trace_ebind; [apply H|]. intros ? _.
  destruct by_row; [|apply trace_eret].
  apply trace_ebind; [apply H|]. intros ? _. apply trace_eret.
Qed.

(** X16: the row-axis pass on its own, [_evaluate_predictions] with
    [metric_by_row], returns on well-shaped non-empty grids with known
    metrics that do not raise and a dataset type other than "multiclass",
    whatever the item count, and every sequence of its result has exactly
    one value. *)
Theorem row_axis_pass_returns preds targets num_tasks metrics dt lg :
  well_shaped preds targets num_tasks →
  preds ≠ [] →
  known_total get_metric_func metrics →
  String.eqb dt "multiclass" = false →
  ∃ tr res,
    _evaluate_predictions get_metric_func preds targets num_tasks metrics dt
      true lg = (tr, Ok res) ∧
    ∀ k values, res !! k = Some values → length values = 1.
Proof.
  intros Hws Hne Hknown Hdt.
  destruct (_evaluate_predictions_succeeds get_metric_func preds targets
              num_tasks metrics dt true lg Hws (Nat.le_refl _) Hknown Hdt)
    as (tr & res & Hrun).
  exists tr, res. split; [done|]. intros k values Hk.
  rewrite (entry_length _ _ _ _ _ _ _ _ _ _ _ _ Hrun Hk).
  by rewrite decide_False by done.
Qed.

End warnings_and_rows.

(** ** Where the warnings go, and the groups of the selector *)

Lemma warning_to_compute_group lg dt mtf vps vts i r :
  Forall (warning_to lg) (compute_group dt mtf vps vts i r).1.
Proof.
  eapply Forall_impl; [apply no_warning_compute_group|].
  by intros [| |].
Qed.

Section destinations.
Variable get_metric_func : string → result metric_func.

(** X17: every warning of a call is one of the two messages of lines 85
    and 89, and it goes to the logger when there is one and to [print]
    otherwise: with a logger nothing is printed, without one nothing is
    logged. *)
Theorem warnings_go_to_the_logger preds targets num_tasks metrics dt by_row
    lg :
  Forall (warning_to lg)
    (evaluate_predictions get_metric_func preds targets num_tasks metrics dt
       by_row lg).1.
Proof.
  assert (H : ∀ b, Forall (warning_to lg)
    (_evaluate_predictions get_metric_func preds targets num_tasks metrics dt
       b lg).1).
  { intros b. unfold _evaluate_predictions.
    destruct (Nat.eqb _ _); [apply trace_eret|].
    apply trace_ebind; [apply trace_lift|]. intros mtf _.
    apply trace_ebind; [apply trace_lift|]. intros valid _.
    apply trace_ebind; [|intros ? _; destruct b; apply trace_eret].
    apply trace_efor_each. intros i r. unfold process_group.
    destruct (String.eqb dt "classification");
      [|apply warning_to_compute_group].
    apply trace_ebind; [apply trace_lift|]. intros ts _.
    apply trace_ebind.
    { destruct (_ && _); [|apply trace_eret]. apply trace_info.
      destruct lg; by left. }
    intros _ _.
    apply trace_ebind; [apply trace_lift|]. intros ps _.
    apply trace_ebind.
    { destruct (_ && _); [|apply trace_eret]. apply trace_info.
      destruct lg; by right. }
    intros _ _.
    destruct (_ || _); [apply trace_eret|apply warning_to_compute_group]. }
  unfold evaluate_predictions. apply trace_ebind; [apply H|]. intros ? _.
  destruct by_row; [|apply trace_eret].
  apply trace_ebind; [apply H|]. intros ? _. apply trace_eret.
Qed.

End destinations.

(** X18: when [select_valid_values] returns, whatever the shape of the
    grids, it returns [num_tasks] groups of predictions and as many of
    targets ([len(preds)] of each in row-axis mode), and a group of
    predictions has as many values as the group of targets of the same
    index. *)
Theorem select_valid_values_aligned preds targets num_tasks (by_row : bool)
    valid_preds valid_targets :
  select_valid_values preds targets num_tasks by_row
    = Ok (valid_preds, valid_targets) →
  let num_values := if by_row then length preds else num_tasks in
  length valid_preds = num_values ∧ length valid_targets = num_values ∧
  ∀ g ps ts, valid_preds !! g = Some ps → valid_targets !! g = Some ts →
    length ps = length ts.
Proof.
  rewrite select_valid_values_eq.
  destruct (forallb _ _) eqn:Hok; [|done]. intros [= <- <-] num_values.
  unfold selected, range. rewrite !length_fmap, !length_seq.
  split; [done|]. split; [done|]. intros g ps ts Hps Hts.
  assert (Hg : g < num_values).
  { apply lookup_lt_Some in Hps. by rewrite length_fmap, length_seq in Hps. }
  destruct (selected_lookup preds targets num_tasks by_row g Hg) as [Hps' Hts'].
  unfold selected, range in Hps', Hts'. cbn [fst snd] in Hps', Hts'.
  assert (ps = group_preds preds targets (length preds) num_tasks by_row g)
    as -> by congruence.
  assert (ts = group_targets targets (length preds) num_tasks by_row g)
    as -> by congruence.
  by apply group_lengths.
Qed.

End numpy.

(** * Counterexamples and instances *)

(** The examples take [in_order_nanmean] for [np.nanmean] and
    [example_registry] for the registry; no counterexample reaches the
    call of [np.nanmean]. *)

Lemma ex_well_shaped : well_shaped ex_preds ex_targets 2.
Proof. repeat split; repeat constructor. Qed.

Lemma ex_known_total : known_total example_registry ["count"%string].
Proof.
  constructor; [|constructor]. exists count_targets. split; [done|].
  intros ts ps labels. by eexists.
Qed.

(** The example of section 8 of the specification: three items, one
    task.  The loop of line 78 runs over the items, and the second item
    has no group. *)
Lemma loop_runs_over_items :
  evaluate_predictions in_order_nanmean example_registry
    [[Num 0.75]; [Num 0.25]; [Num 0.5]]
    [[Some 1%float]; [Some 0%float]; [None]] 1 ["count"%string]
    "classification" false None
  = ([Invoked "count" [1%float; 0%float] [Num 0.75; Num 0.25] None],
     Raise IndexError).
Proof. reflexivity. Qed.

(** C1 as stated fails: on classification data the second task of the
    example grids, which has no valid target, gets an entry. *)
Lemma task_without_targets_has_entry :
  ¬ one_entry_per_labelled_task in_order_nanmean example_registry ex_preds ex_targets 2
      ["count"%string] "classification" None.
Proof.
  intros (tr & res & Hrun & Hlen).
  vm_compute in Hrun. injection Hrun as <- <-.
  specialize (Hlen "count"%string (list_elem_of_here _ _)).
  vm_compute in Hlen. discriminate.
Qed.

(** C2 as the specification states it does not hold: the grids below are
    two cells wide and [num_tasks] is 1, and the selector returns. *)
Lemma shape_mismatch_is_accepted :
  ¬ well_shaped [[Num 1; Num 2]] [[Some 1%float; Some 2%float]] 1 ∧
  select_valid_values [[Num 1; Num 2]] [[Some 1%float; Some 2%float]] 1 false
    = Ok ([[Num 1]], [[1%float]]).
Proof.
  split; [|reflexivity].
  intros (_ & Hp & _). by apply Forall_cons in Hp as [[=] _].
Qed.

(** C3 as stated fails: on an empty grid with [metric_by_row] the result
    has no "-by-row" key. *)
Lemma empty_grid_has_no_row_keys :
  ∃ tr res,
    evaluate_predictions in_order_nanmean example_registry [] [] 1 ["count"%string]
      "regression" true None = (tr, Ok res) ∧
    ¬ keys_as_requested ["count"%string] true res.
Proof.
  eexists _, _. split; [reflexivity|]. unfold keys_as_requested. intros Heq.
  assert (Hin : "count-by-row"%string ∈
            dom (nan_results ["count"%string] 1 ∪ nan_results ["count"%string] 1)).
  { rewrite Heq. apply elem_of_union_r, elem_of_list_to_set.
    apply list_elem_of_here. }
  apply elem_of_dom in Hin as [l Hl]. vm_compute in Hl. discriminate.
Qed.

(** C6 as stated fails: on regression data without any target the result
    has no row-axis entry. *)
Lemma unlabelled_grid_has_no_row_entry :
  ∃ tr res,
    evaluate_predictions in_order_nanmean example_registry [[Num 0.5]] [[None]] 1
      ["count"%string] "regression" true None = (tr, Ok res) ∧
    ¬ single_row_entry ["count"%string] res.
Proof.
  eexists _, _. split; [reflexivity|]. intros Hall.
  destruct (Hall "count"%string (list_elem_of_here _ _)) as [x Hx].
  vm_compute in Hx. discriminate.
Qed.

Lemma task_axis_entries_witness :
  ∃ tr res xs,
    evaluate_predictions in_order_nanmean example_registry ex_preds ex_targets 2
      ["count"%string] "regression" false None = (tr, Ok res) ∧
    res !! "count"%string = (if xs is [] then None else Some xs) ∧
    length xs ≤ 2.
Proof.
  destruct (task_axis_entries in_order_nanmean example_registry ex_preds ex_targets 2
              ["count"%string] "regression" None "count"%string)
    as [Hret Hent].
  - exact ex_well_shaped.
  - discriminate.
  - reflexivity.
  - apply list_elem_of_here.
  - destruct (Hret ex_known_total eq_refl) as (tr & res & Hrun).
    destruct (Hent tr res Hrun) as (f & xs & _ & _ & Hlook & Hlen).
    by exists tr, res, xs.
Defined.

Lemma select_valid_values_fails_iff_witness :
  select_valid_values [[Num 1]] [[Some 1%float]] 2 false = Raise IndexError.
Proof.
  apply (select_valid_values_fails_iff in_order_nanmean example_registry).
  exists (0, 1). repeat split; simpl; lia.
Defined.

Lemma result_keys_witness :
  ∃ tr res,
    evaluate_predictions in_order_nanmean example_registry ex_preds ex_targets 2
      ["count"%string] "regression" true None = (tr, Ok res) ∧
    dom res = {["count"%string; "count-by-row"%string]}.
Proof.
  destruct (evaluate_predictions_succeeds in_order_nanmean example_registry ex_preds ex_targets
              2 ["count"%string] "regression" true None ex_well_shaped
              (Nat.le_refl _) ex_known_total eq_refl) as (tr & res & Hrun).
  pose proof (result_keys in_order_nanmean example_registry _ _ _ _ _ _ _ _ _ Hrun) as Hkeys.
  rewrite decide_False in Hkeys by discriminate.
  destruct Hkeys as (task_any & Hdom & Htask).
  rewrite (Htask eq_refl) in Hdom.
  exists tr, res. split; [done|]. rewrite Hdom. set_solver.
Defined.


Lemma sum_in_order (acc : sum_tree) (xs : list float) :
  ∃ t, terms t ≡ₚ xs ++ terms acc ∧
       total t = foldl PrimFloat.add (total acc) xs.
Proof.
  revert acc. induction xs as [|x xs IH]; intros acc; [by exists acc|].
  destruct (IH (Plus acc (Term x))) as (t & Hterms & Htotal).
  exists t. split; [|done]. rewrite Hterms. cbn [terms].
  by rewrite app_assoc, <- Permutation_cons_append.
Qed.

Lemma in_order_nanmean_spec values :
  skip_nan_mean values (in_order_nanmean values).
Proof.
  destruct (sum_in_order (Term 0%float) (List.filter not_nan values))
    as (t & Hterms & Htotal).
  exists t, [0%float]. split; [done|]. split; [by repeat constructor; left|].
  unfold in_order_nanmean, fsum. by rewrite Htotal.
Qed.

Lemma row_axis_entry_witness :
  ∃ tr res xs,
    evaluate_predictions in_order_nanmean example_registry ex_preds
      ex_targets 2 ["count"%string] "regression" true None = (tr, Ok res) ∧
    xs ≠ [] ∧ res !! "count-by-row"%string = Some [in_order_nanmean xs] ∧
    skip_nan_mean xs (in_order_nanmean xs).
Proof.
  destruct (row_axis_entry in_order_nanmean example_registry ex_preds
              ex_targets 2 ["count"%string] "regression" None
              "count"%string)
    as [Hret Hent].
  - discriminate.
  - apply list_elem_of_here.
  - destruct (Hret ex_well_shaped eq_refl ex_known_total eq_refl)
      as (tr & res & Hrun).
    destruct (Hent tr res Hrun) as (f & xs & _ & Hxs & Hsome & _ & Hmean).
    apply Forall2_length in Hxs. vm_compute in Hxs.
    assert (Hne : xs ≠ []) by (by destruct xs).
    exists tr, res, xs. split; [done|]. split; [done|].
    split; [by apply Hsome|]. apply Hmean, in_order_nanmean_spec.
Defined.

Lemma select_valid_values_partitions_witness :
  ∃ valid_preds valid_targets,
    select_valid_values ex_preds ex_targets 2 false
      = Ok (valid_preds, valid_targets) ∧
    Forall2 (λ g ts,
               Forall2 (λ c t, target_at ex_targets c = Some (Some t))
                 (group_cells ex_targets 2 2 false g) ts)
      (range 2) valid_targets.
Proof.
  destruct (select_valid_values_partitions ex_preds ex_targets 2 false
              ex_well_shaped) as (vp & vt & Hsel & _ & Hts & _).
  by exists vp, vt.
Defined.


Lemma results_have_one_length_witness :
  ∃ tr res,
    _evaluate_predictions in_order_nanmean example_registry ex_preds ex_targets 2
      ["count"%string; "sum"%string] "classification" false None
      = (tr, Ok res) ∧
    ∀ k1 k2 l1 l2,
      res !! k1 = Some l1 → res !! k2 = Some l2 → length l1 = length l2.
Proof.
  assert (Hrun : succeeds
    (_evaluate_predictions in_order_nanmean example_registry ex_preds ex_targets 2
       ["count"%string; "sum"%string] "classification" false None)).
  { eexists _, _. reflexivity. }
  destruct Hrun as (tr & res & Hrun). exists tr, res. split; [done|].
  exact (proj1 (results_have_one_length in_order_nanmean example_registry _ _ _ _ _ _ _ _ _
                  Hrun)).
Defined.
(** ** Instances of the further properties *)

Lemma ex_known_total2 :
  known_total example_registry ["count"%string; "sum"%string].
Proof.
  repeat constructor.
  - exists count_targets. split; [done|]. intros ts ps labels. by eexists.
  - exists sum_targets. split; [done|]. intros ts ps labels. by eexists.
Qed.

Lemma returns_only_if_items_le_tasks_witness :
  ∃ tr res,
    evaluate_predictions in_order_nanmean example_registry ex_preds ex_targets 2
      ["count"%string] "regression" true None = (tr, Ok res) ∧
    length ex_preds ≤ 2.
Proof.
  destruct (evaluate_predictions_succeeds in_order_nanmean example_registry ex_preds ex_targets
              2 ["count"%string] "regression" true None ex_well_shaped
              (Nat.le_refl _) ex_known_total eq_refl) as (tr & res & Hrun).
  exists tr, res. split; [done|].
  exact (returns_only_if_items_le_tasks in_order_nanmean example_registry _ _ _ _ _ _ _ _ _
           Hrun).
Defined.

Lemma entries_of_the_first_tasks_witness :
  ∃ tr res xs,
    evaluate_predictions in_order_nanmean example_registry [[Num 0.75; Num 0.5]]
      [[Some 1%float; Some 0%float]] 2 ["count"%string] "regression" false
      None = (tr, Ok res) ∧
    res !! "count"%string = (if xs is [] then None else Some xs) ∧
    length xs ≤ 1.
Proof.
  assert (Hws : well_shaped [[Num 0.75; Num 0.5]]
                  [[Some 1%float; Some 0%float]] 2)
    by (repeat split; repeat constructor).
  destruct (evaluate_predictions_succeeds in_order_nanmean example_registry
              [[Num 0.75; Num 0.5]] [[Some 1%float; Some 0%float]] 2
              ["count"%string] "regression" false None Hws
              (Nat.le_succ_diag_r 1) ex_known_total eq_refl)
    as (tr & res & Hrun).
  assert (Hne : [[Num 0.75; Num 0.5]] ≠ []) by discriminate.
  destruct (entries_of_the_first_tasks in_order_nanmean example_registry _ _ _ _ _ _ _ _
              "count"%string Hne Hrun (list_elem_of_here _ _))
    as (f & xs & _ & _ & Hlook & Hlen).
  by exists tr, res, xs.
Defined.

Lemma evaluate_more_items_than_tasks_witness :
  ∃ tr,
    evaluate in_order_nanmean unit unit unit
      (λ _ _ _, Ok [[Num 0.75]; [Num 0.25]; [Num 0.5]])
      (λ _, Ok [[Some 1%float]; [Some 0%float]; [None]])
      example_registry tt tt 1 ["count"%string] "classification" false None
      None = (tr, Raise IndexError).
Proof.
  apply (evaluate_more_items_than_tasks in_order_nanmean unit unit unit _ _ example_registry
           tt tt 1 ["count"%string] "classification" false None None
           [[Num 0.75]; [Num 0.25]; [Num 0.5]]
           [[Some 1%float]; [Some 0%float]; [None]]).
  - reflexivity.
  - reflexivity.
  - repeat split; repeat constructor.
  - simpl. lia.
  - exact ex_known_total.
  - reflexivity.
Defined.

Lemma evaluate_without_predictions_witness :
  evaluate in_order_nanmean unit unit unit (λ _ _ _, Ok []) (λ _, Ok []) example_registry tt tt
    2 ["unknown"%string] "regression" true None None
  = ([], Ok (nan_results ["unknown"%string] 2)).
Proof.
  refine (proj1 (evaluate_without_predictions in_order_nanmean unit unit unit _ _
                   example_registry tt tt 2 ["unknown"%string] "regression"
                   true None None [] _ _)); reflexivity.
Defined.

Lemma task_entries_survive_row_axis_witness :
  ∃ tr res tr0 res0,
    evaluate_predictions in_order_nanmean example_registry ex_preds ex_targets 2
      ["count"%string] "regression" true None = (tr, Ok res) ∧
    evaluate_predictions in_order_nanmean example_registry ex_preds ex_targets 2
      ["count"%string] "regression" false None = (tr0, Ok res0) ∧
    res !! "count"%string = res0 !! "count"%string.
Proof.
  destruct (evaluate_predictions_succeeds in_order_nanmean example_registry ex_preds ex_targets
              2 ["count"%string] "regression" true None ex_well_shaped
              (Nat.le_refl _) ex_known_total eq_refl) as (tr & res & Hrun).
  destruct (task_entries_survive_row_axis in_order_nanmean example_registry _ _ _ _ _ _ _ _ Hrun)
    as (tr0 & res0 & Hrun0 & _ & Hkeep).
  exists tr, res, tr0, res0. split; [done|]. split; [done|].
  apply Hkeep. intros [[=]|[]%elem_of_nil]%elem_of_cons.
Defined.

Lemma unknown_metric_raises_first_witness :
  evaluate_predictions in_order_nanmean example_registry ex_preds ex_targets 2
    (["count"%string] ++ "auc"%string :: ["sum"%string]) "regression" true
    None = ([], Raise (ValueError "unknown metric")).
Proof.
  apply unknown_metric_raises_first.
  - discriminate.
  - constructor; [by exists count_targets|constructor].
  - reflexivity.
Defined.

Lemma unread_cells_do_not_matter_witness :
  evaluate_predictions in_order_nanmean example_registry ex_preds ex_targets 2
    ["count"%string] "regression" true None
  = evaluate_predictions in_order_nanmean example_registry
      [[Num 0.75; Num 0.125; Num 2.5]; [Num 0.25]]
      [[Some 1%float; None]; [Some 0%float; None; Some 1%float]; [None]] 2
      ["count"%string] "regression" true None.
Proof.
  apply unread_cells_do_not_matter. split; [reflexivity|].
  intros [j i] Hj Hi. cbn [fst snd ex_preds length] in Hj, Hi.
  destruct j as [|[|j]]; [| |lia]; (destruct i as [|[|i]]; [| |lia]);
    split; (reflexivity || discriminate).
Defined.

Lemma multiclass_scores_are_evaluated_witness :
  succeeds
    (evaluate_predictions in_order_nanmean example_registry [[Scores [0.25%float; 0.75%float]]]
       [[Some 1%float]] 1 ["count"%string] "multiclass" true None).
Proof.
  apply multiclass_scores_are_evaluated.
  - repeat split; repeat constructor.
  - reflexivity.
  - exact ex_known_total.
  - repeat constructor. by eexists.
Defined.

Lemma multiclass_numbers_raise_witness :
  evaluate_predictions in_order_nanmean example_registry ex_preds ex_targets 2
    ["count"%string] "multiclass" true None = ([], Raise TypeError).
Proof.
  apply (multiclass_numbers_raise in_order_nanmean example_registry ex_preds ex_targets 2
           ["count"%string] true None (0, 0)).
  - exact ex_well_shaped.
  - reflexivity.
  - discriminate.
  - constructor; [by exists count_targets|constructor].
  - repeat constructor; by eexists.
  - simpl. lia.
  - simpl. lia.
  - reflexivity.
Defined.

Lemma select_valid_values_app_witness :
  select_valid_values ([[Num 0.75]] ++ [[Num 0.25]])
    ([[Some 1%float]] ++ [[None]]) 1 false
  = (first <- select_valid_values [[Num 0.75]] [[Some 1%float]] 1 false;;
     second <- select_valid_values [[Num 0.25]] [[None]] 1 false;;
     Ok (combine false first second)).
Proof. apply select_valid_values_app. reflexivity. Defined.

Lemma metric_order_does_not_matter_witness :
  ∃ tr tr' res,
    evaluate_predictions in_order_nanmean example_registry ex_preds ex_targets 2
      ["count"%string; "sum"%string] "regression" true None = (tr, Ok res) ∧
    evaluate_predictions in_order_nanmean example_registry ex_preds ex_targets 2
      ["sum"%string; "count"%string; "sum"%string] "regression" true None
      = (tr', Ok res).
Proof.
  destruct (evaluate_predictions_succeeds in_order_nanmean example_registry ex_preds ex_targets
              2 ["count"%string; "sum"%string] "regression" true None
              ex_well_shaped (Nat.le_refl _) ex_known_total2 eq_refl)
    as (tr & res & Hrun).
  destruct (metric_order_does_not_matter in_order_nanmean example_registry ex_preds ex_targets
              2 ["count"%string; "sum"%string]
              ["sum"%string; "count"%string; "sum"%string] "regression" true
              None tr res) as [tr' Hrun']; [|done|by exists tr, tr', res].
  intros m. rewrite !elem_of_cons. tauto.
Defined.

Lemma only_classification_warns_witness :
  Forall (λ ev, is_warning ev = false)
    (evaluate_predictions in_order_nanmean example_registry ex_preds ex_targets 2
       ["count"%string] "regression" true None).1.
Proof. by apply only_classification_warns. Defined.

Lemma row_axis_pass_returns_witness :
  ∃ tr res,
    _evaluate_predictions in_order_nanmean example_registry
      [[Num 0.75]; [Num 0.25]; [Num 0.5]]
      [[Some 1%float]; [Some 0%float]; [None]] 1 ["count"%string]
      "classification" true None = (tr, Ok res) ∧
    ∀ k values, res !! k = Some values → length values = 1.
Proof.
  apply row_axis_pass_returns.
  - repeat split; repeat constructor.
  - discriminate.
  - exact ex_known_total.
  - reflexivity.
Defined.

Lemma select_valid_values_aligned_witness :
  ∃ valid_preds valid_targets,
    select_valid_values [[Num 0.75; Num 0.5]; [Num 0.25]]
      [[Some 1%float; None; Some 0%float]; [Some 0%float; None]] 2 true
      = Ok (valid_preds, valid_targets) ∧
    length valid_preds = 2 ∧ length valid_targets = 2.
Proof.
  eexists _, _. split; [reflexivity|].
  destruct (select_valid_values_aligned
              [[Num 0.75; Num 0.5]; [Num 0.25]]
              [[Some 1%float; None; Some 0%float]; [Some 0%float; None]] 2
              true _ _ eq_refl) as (H1 & H2 & _).
  by split.
Defined.
